(** * Orbit ml-service: sketch-to-mesh conversion pipeline

    A shallow embedding of [ml-service/app]: the job registry
    ([conversion_status]), the upload validation of [FileHandler], the demo
    sketch analysis and mesh synthesis of [DemoMeshGenerator], the
    [Sketch2MeshService] wrapper, the background coroutine
    [process_conversion] and the three endpoints of [main.py].

    Conventions.
    - Python exceptions are values of [Exn]; code that can raise lives in the
      state-and-exception monad [M] over [World].  A raise keeps the state
      changes made so far, as in Python.
    - [float] arithmetic is modelled by exact rational arithmetic on [Q];
      rounding of binary64 is not modelled.
    - Third-party calls (PIL decoding, trimesh primitives and GLB export) and
      the configured settings are the fields of the [Platform] class. *)

From Stdlib Require Import ZArith QArith Qminmax String Ascii List Lia Lqa.
From stdpp Require Import base gmap strings list fin_maps pretty.

Local Open Scope Z_scope.

(** ** Python values *)

Inductive Exn :=
| HTTPException (status_code : Z) (detail : string)
| KeyError (key : string)
| Exception (msg : string).

(** [str(e)].  Starlette prints an [HTTPException] as [code: detail];
    [KeyError] prints the repr of its key. *)
Definition str (e : Exn) : string :=
  match e with
  | HTTPException c d => pretty c +:+ ": " +:+ d
  | KeyError k => "'" +:+ k +:+ "'"
  | Exception m => m
  end.

(** Decidable comparison of rationals, for [if a < b] on floats. *)
#[global] Instance Qlt_decision (a b : Q) : Decision (a < b)%Q.
Proof.
  destruct (Qlt_le_dec a b) as [Hlt | Hle]; [left; exact Hlt | right].
  intros Hlt. exact (Qlt_not_le _ _ Hlt Hle).
Defined.

(** [sub in s] on strings. *)
Definition contains (sub s : string) : bool :=
  match String.index 0 sub s with Some _ => true | None => false end.

(** [s.startswith(p)] *)
Definition startswith (s p : string) : bool := String.prefix p s.

(** [os.path.join(a, b)] for two components (POSIX). *)
Definition path_join (a b : string) : string :=
  if startswith b "/" then b
  else if bool_decide (a = "") then b
  else if contains "/" (String.substring (String.length a - 1) 1 a) then a +:+ b
  else a +:+ "/" +:+ b.

(** ** Data model *)

(** One entry of [conversion_status]: the dict with keys ["status"],
    ["progress"] and ["error"]. *)
Record Job := mkJob {
  status : string;
  progress : Z;
  error : option string;
}.

#[global] Instance Job_eq_dec : EqDecision Job.
Proof. solve_decision. Defined.

(** Program points at which [process_conversion] can be suspended: before
    its first statement (just created by [asyncio.create_task]) and at the
    [await] of the service call. *)
Inductive ProgramPoint := Scheduled | Awaiting.

#[global] Instance ProgramPoint_eq_dec : EqDecision ProgramPoint.
Proof. solve_decision. Defined.

(** A live [process_conversion] coroutine: its arguments and where it is. *)
Record Task := mkTask {
  t_mesh_id : string;
  t_sketch_path : string;
  t_model_type : string;
  t_sketch_style : string;
  t_output_path : string;
  t_pc : ProgramPoint;
}.

(** [fastapi.UploadFile] *)
Record UploadFile := mkUpload {
  content_type : option string;
  content : list Byte.byte;
}.

(** The process state.  [history] is a ghost field: every write to the
    registry appends the key and the record as it is after the write, so
    that the order of updates can be stated. *)
Record World := mkWorld {
  conversion_status : gmap string Job;
  models_ready : bool;
  files : gmap string (list Byte.byte);
  writable : string → bool;
  tasks : list Task;
  history : list (string * Job);
}.

Definition with_registry (r : gmap string Job) (h : list (string * Job)) (w : World) : World :=
  mkWorld r (models_ready w) (files w) (writable w) (tasks w) h.

Definition with_files (f : gmap string (list Byte.byte)) (w : World) : World :=
  mkWorld (conversion_status w) (models_ready w) f (writable w) (tasks w) (history w).

Definition with_tasks (ts : list Task) (w : World) : World :=
  mkWorld (conversion_status w) (models_ready w) (files w) (writable w) ts (history w).

(** ** The state-and-exception monad *)

Inductive Res (A : Type) :=
| Ok (a : A)
| Raise (e : Exn).
Arguments Ok {A} a.
Arguments Raise {A} e.

Definition M (A : Type) : Type := World → Res A * World.

#[global] Instance M_ret : MRet M := λ A a w, (Ok a, w).
#[global] Instance M_bind : MBind M := λ A B f m w,
  match m w with
  | (Ok a, w') => f a w'
  | (Raise e, w') => (Raise e, w')
  end.

Definition raise {A} (e : Exn) : M A := λ w, (Raise e, w).

(** [try: body  except Exception as e: handler e] *)
Definition try_except {A} (body : M A) (handler : Exn → M A) : M A := λ w,
  match body w with
  | (Ok a, w') => (Ok a, w')
  | (Raise e, w') => handler e w'
  end.

Definition get_world : M World := λ w, (Ok w, w).

(** ** Job registry: the module-level dict [conversion_status] *)

(** [conversion_status[k] = j] *)
Definition registry_setitem (k : string) (j : Job) : M unit := λ w,
  (Ok (), with_registry (<[k := j]> (conversion_status w)) (history w ++ [(k, j)]) w).

(** [conversion_status[k][field] = v]: the lookup raises [KeyError] when [k]
    is absent, otherwise the inner dict is updated in place. *)
Definition registry_update (k : string) (f : Job → Job) : M unit := λ w,
  match conversion_status w !! k with
  | None => (Raise (KeyError k), w)
  | Some j => registry_setitem k (f j) w
  end.

Definition set_status (k s : string) : M unit :=
  registry_update k (λ j, mkJob s (progress j) (error j)).
Definition set_progress (k : string) (p : Z) : M unit :=
  registry_update k (λ j, mkJob (status j) p (error j)).
Definition set_error (k e : string) : M unit :=
  registry_update k (λ j, mkJob (status j) (progress j) (Some e)).

(** ** File system *)

(** [os.path.exists(p)] *)
Definition path_exists (p : string) : M bool := λ w,
  (Ok (bool_decide (is_Some (files w !! p))), w).

(** [open(p, 'rb').read()] *)
Definition read_bytes (p : string) : M (list Byte.byte) := λ w,
  match files w !! p with
  | Some b => (Ok b, w)
  | None => (Raise (Exception ("[Errno 2] No such file or directory: '" +:+ p +:+ "'")), w)
  end.

(** [open(p, 'wb').write(b)] *)
Definition write_bytes (p : string) (b : list Byte.byte) : M unit := λ w,
  if writable w p then (Ok (), with_files (<[p := b]> (files w)) w)
  else (Raise (Exception ("[Errno 2] No such file or directory: '" +:+ p +:+ "'")), w).

(** ** Meshes *)

Definition Vec3 : Type := Q * Q * Q.

Record Trimesh := mkMesh {
  vertices : list Vec3;
  faces : list (nat * nat * nat);
}.

Definition vadd (t v : Vec3) : Vec3 :=
  let '(tx, ty, tz) := t in let '(x, y, z) := v in ((x + tx)%Q, (y + ty)%Q, (z + tz)%Q).

Definition vscale (s : Q) (v : Vec3) : Vec3 :=
  let '(x, y, z) := v in ((x * s)%Q, (y * s)%Q, (z * s)%Q).

(** [mesh.apply_translation(t)] *)
Definition apply_translation (t : Vec3) (m : Trimesh) : Trimesh :=
  mkMesh (vadd t <$> vertices m) (faces m).

(** [mesh.apply_scale(s)] *)
Definition apply_scale (s : Q) (m : Trimesh) : Trimesh :=
  mkMesh (vscale s <$> vertices m) (faces m).

Definition shift_face (n : nat) (f : nat * nat * nat) : nat * nat * nat :=
  let '(a, b, c) := f in ((a + n)%nat, (b + n)%nat, (c + n)%nat).

Definition mesh_append (a b : Trimesh) : Trimesh :=
  mkMesh (vertices a ++ vertices b) (faces a ++ (shift_face (length (vertices a)) <$> faces b)).

(** [trimesh.util.concatenate(meshes)] *)
Definition concatenate (ms : list Trimesh) : Trimesh :=
  foldl mesh_append (mkMesh [] []) ms.

(** ** Third-party libraries and settings *)

Class Platform := {
  (** [np.array(Image.open(path).convert('L'))] on the bytes of the file:
      the rows of 8-bit intensities, [None] when PIL cannot decode them. *)
  decode_grayscale : list Byte.byte → option (list (list Z));
  (** [trimesh.creation.box(extents=[x, y, z])] *)
  creation_box : Vec3 → Trimesh;
  (** [trimesh.creation.cylinder(radius, height, sections)] *)
  creation_cylinder : Q → Q → nat → Trimesh;
  (** [apply_transform(rotation_matrix(pi / 2, [1, 0, 0]))] *)
  rotate_quarter_x : Trimesh → Trimesh;
  (** the bytes written by [mesh.export(path, file_type='glb')] *)
  export_glb : Trimesh → list Byte.byte;
  (** [app.config.settings] *)
  UPLOADS_DIR : string;
  OUTPUTS_DIR : string;
  MAX_UPLOAD_SIZE_MB : Z;
}.

(** ** services/demo_mesh_generator.py *)

(** A pixel counts as drawn when [img_array < 200]. *)
Definition is_ink (p : Z) : bool := p <? 200.

(** [np.sum(img_array < 200)] *)
Definition count_ink (img_array : list (list Z)) : Z :=
  foldr (λ row acc, Z.of_nat (length (filter (λ p, is_ink p = true) row)) + acc) 0 img_array.

(** [img_array.shape] and [img_array.size] of the two-dimensional array. *)
Definition shape (img_array : list (list Z)) : nat * nat :=
  (length img_array, length (hd [] img_array)).
Definition array_size (img_array : list (list Z)) : Z :=
  Z.of_nat (fst (shape img_array) * snd (shape img_array)).

(** [np.any(img_array < 200, axis=1)]: one flag per row. *)
Definition any_axis1 (img_array : list (list Z)) : list bool :=
  existsb is_ink <$> img_array.

(** [np.any(img_array < 200, axis=0)]: one flag per column. *)
Definition any_axis0 (img_array : list (list Z)) : list bool :=
  (λ j, existsb (λ row, match row !! j with Some p => is_ink p | None => false end) img_array)
    <$> seq 0 (snd (shape img_array)).

(** [np.where(flags)[0]]: the indices of the true flags, increasing. *)
Fixpoint np_where_from (i : Z) (flags : list bool) : list Z :=
  match flags with
  | [] => []
  | b :: rest => if b then i :: np_where_from (i + 1) rest else np_where_from (i + 1) rest
  end.
Definition np_where (flags : list bool) : list Z := np_where_from 0 flags.

(** [a[[0, -1]]] on a non-empty index array: its first and last entry. *)
Definition first_last (a : list Z) : Z * Z := (hd 0 a, List.last a 0).

(** [flags.any()] *)
Definition any (flags : list bool) : bool := existsb id flags.

Record SketchStatistics := mkStats {
  coverage : Q;
  aspect_ratio : Q;
  width : Z;
  height : Z;
}.

(** Lines 40-55 of [generate_mesh_from_sketch]: the analysis of the decoded
    grayscale array. *)
Definition sketch_statistics (img_array : list (list Z)) : SketchStatistics :=
  let non_white_pixels := count_ink img_array in
  let total_pixels := array_size img_array in
  let coverage := (inject_Z non_white_pixels / inject_Z total_pixels)%Q in
  let rows := any_axis1 img_array in
  let cols := any_axis0 img_array in
  if any rows && any cols then
    let '(ymin, ymax) := first_last (np_where rows) in
    let '(xmin, xmax) := first_last (np_where cols) in
    let width := xmax - xmin in
    let height := ymax - ymin in
    let aspect_ratio := (inject_Z width / inject_Z (Z.max height 1))%Q in
    mkStats coverage aspect_ratio width height
  else
    mkStats coverage 1 0 0.

Section Services.
Context `{!Platform}.

(** [scale_factor = 0.5 + (coverage * 1.5)] *)
Definition scale_factor (coverage : Q) : Q := (0.5 + coverage * 1.5)%Q.

(** The merged parts of the car before the final [apply_scale]. *)
Definition car_parts (aspect_ratio : Q) : Trimesh :=
  let scale_x := Qmax 2.0 (aspect_ratio * 1.5) in
  let scale_y := 0.8%Q in
  let scale_z := 1.2%Q in
  let body := creation_box (scale_x, scale_y, scale_z) in
  let roof := creation_box (scale_x * 0.6, scale_y, scale_z * 0.5)%Q in
  let roof := apply_translation (0, 0, scale_z * 0.7)%Q roof in
  let wheel_radius := 0.3%Q in
  let wheel_height := 0.2%Q in
  let positions : list Vec3 :=
    [ (scale_x * 0.4, scale_y * 0.6, - scale_z * 0.3);
      (scale_x * 0.4, - scale_y * 0.6, - scale_z * 0.3);
      (- scale_x * 0.4, scale_y * 0.6, - scale_z * 0.3);
      (- scale_x * 0.4, - scale_y * 0.6, - scale_z * 0.3) ]%Q in
  let wheels :=
    (λ pos, apply_translation pos
              (rotate_quarter_x (creation_cylinder wheel_radius wheel_height 16)))
      <$> positions in
  let meshes := [body; roof] ++ wheels in
  concatenate meshes.

Definition _generate_car_like_mesh (coverage aspect_ratio : Q) (width height : Z) : Trimesh :=
  let combined := car_parts aspect_ratio in
  let scale_factor := (0.5 + coverage * 1.5)%Q in
  apply_scale scale_factor combined.

(** The merged parts of the chair before the final [apply_scale]. *)
Definition chair_parts : Trimesh :=
  let seat := creation_box (1.5, 1.5, 0.2)%Q in
  let seat := apply_translation (0, 0, 1.0)%Q seat in
  let backrest := creation_box (1.5, 0.2, 1.5)%Q in
  let backrest := apply_translation (0, - 0.7, 1.8)%Q backrest in
  let leg_radius := 0.08%Q in
  let leg_height := 1.0%Q in
  let positions : list Vec3 :=
    [ (0.6, 0.6, leg_height / 2);
      (0.6, - 0.6, leg_height / 2);
      (- 0.6, 0.6, leg_height / 2);
      (- 0.6, - 0.6, leg_height / 2) ]%Q in
  let legs :=
    (λ pos, apply_translation pos (creation_cylinder leg_radius leg_height 12)) <$> positions in
  let meshes := [seat; backrest] ++ legs in
  concatenate meshes.

Definition _generate_chair_like_mesh (coverage aspect_ratio : Q) (width height : Z) : Trimesh :=
  let combined := chair_parts in
  let scale_factor := (0.5 + coverage * 1.5)%Q in
  apply_scale scale_factor combined.

(** [Image.open(sketch_path).convert('L')] followed by [np.array]: raises
    when the file is missing or PIL cannot identify the image. *)
Definition open_grayscale (sketch_path : string) : M (list (list Z)) :=
  bytes ← read_bytes sketch_path;
  match decode_grayscale bytes with
  | Some img_array => mret img_array
  | None => raise (Exception ("cannot identify image file '" +:+ sketch_path +:+ "'"))
  end.

(** The mesh built for a decoded sketch (lines 40-67). *)
Definition mesh_of_sketch (img_array : list (list Z)) (model_type : string) : Trimesh :=
  let st := sketch_statistics img_array in
  if bool_decide (model_type = "cars") then
    _generate_car_like_mesh (coverage st) (aspect_ratio st) (width st) (height st)
  else
    _generate_chair_like_mesh (coverage st) (aspect_ratio st) (width st) (height st).

Definition generate_mesh_from_sketch (sketch_path model_type output_path : string) : M bool :=
  try_except
    (img_array ← open_grayscale sketch_path;
     let mesh := mesh_of_sketch img_array model_type in
     write_bytes output_path (export_glb mesh);;
     mret true)
    (λ e, mret false).

(** ** services/sketch2mesh_service.py *)

Definition USE_DEMO_MODE : bool := true.

Definition _run_real_sketch2mesh
    (sketch_path model_type sketch_style output_path : string) : M bool :=
  mret false.

Definition convert_sketch_to_mesh
    (sketch_path model_type sketch_style output_path : string) : M bool :=
  try_except
    (found ← path_exists sketch_path;
     if negb found then mret false
     else if USE_DEMO_MODE then
       generate_mesh_from_sketch sketch_path model_type output_path
     else
       _run_real_sketch2mesh sketch_path model_type sketch_style output_path)
    (λ e, mret false).

End Services.

(** ** services/file_handler.py and main.py *)

(** [models.py] *)
Record ConvertResponse := mkConvertResponse {
  cr_mesh_id : string;
  cr_status : string;
  cr_download_url : option string;
  cr_error : option string;
}.

Record StatusResponse := mkStatusResponse {
  sr_status : string;
  sr_progress : option Z;
  sr_error : option string;
}.

(** [fastapi.responses.FileResponse] *)
Record FileResponse := mkFileResponse {
  fr_path : string;
  fr_media_type : string;
  fr_filename : string;
  fr_headers : list (string * string);
}.

Section Main.
Context `{!Platform}.

(** [except HTTPException: raise] then
    [except Exception as e: raise HTTPException(500, prefix + str(e))] *)
Definition reraise_as_500 {A} (prefix : string) (e : Exn) : M A :=
  match e with
  | HTTPException _ _ => raise e
  | _ => raise (HTTPException 500 (prefix +:+ str e))
  end.

(** [FileHandler.save_upload].  [uuid4] is the value of [str(uuid.uuid4())]
    drawn by this call. *)
Definition save_upload (file : UploadFile) (uuid4 : string) : M (string * string) :=
  try_except
    ((if negb (match content_type file with
               | Some ct => startswith ct "image/"
               | None => false
               end)
      then raise (HTTPException 400 "Invalid file type. Must be an image.")
      else mret ());;
     let content := content file in
     let size_mb := (inject_Z (Z.of_nat (length content)) / inject_Z (1024 * 1024))%Q in
     (if bool_decide (inject_Z MAX_UPLOAD_SIZE_MB < size_mb)%Q
      then raise (HTTPException 413
                    ("File too large. Maximum size is " +:+ pretty MAX_UPLOAD_SIZE_MB +:+ "MB"))
      else mret ());;
     let mesh_id := uuid4 in
     let ext :=
       match content_type file with
       | Some ct =>
           if contains "jpeg" ct || contains "jpg" ct then "jpg"
           else if contains "png" ct then "png"
           else "png"
       | None => "png"
       end in
     let file_path := path_join UPLOADS_DIR (mesh_id +:+ "." +:+ ext) in
     write_bytes file_path content;;
     mret (mesh_id, file_path))
    (reraise_as_500 "Failed to save file: ").

(** [FileHandler.get_output_path] *)
Definition get_output_path (mesh_id extension : string) : string :=
  path_join OUTPUTS_DIR (mesh_id +:+ "." +:+ extension).

(** [FileHandler.file_exists] *)
Definition file_exists (file_path : string) : M bool := path_exists file_path.

(** [asyncio.create_task(process_conversion(...))]: the coroutine is queued
    and starts at a later turn of the event loop. *)
Definition create_task (t : Task) : M unit := λ w,
  (Ok (), with_tasks (tasks w ++ [t]) w).

(** [POST /convert] *)
Definition convert_sketch (sketch : UploadFile) (model_type sketch_style uuid4 : string)
    : M ConvertResponse :=
  try_except
    (w ← get_world;
     (if negb (models_ready w)
      then raise (HTTPException 503 "Service not ready. Models are still initializing.")
      else mret ());;
     (if negb (bool_decide (model_type ∈ ["cars"; "chairs"]))
      then raise (HTTPException 400 "model_type must be 'cars' or 'chairs'")
      else mret ());;
     (if negb (bool_decide (sketch_style ∈ ["suggestive"; "fd"; "handdrawn"]))
      then raise (HTTPException 400
                    "sketch_style must be 'suggestive', 'fd', or 'handdrawn'")
      else mret ());;
     '(mesh_id, sketch_path) ← save_upload sketch uuid4;
     registry_setitem mesh_id (mkJob "processing" 0 None);;
     let output_path := get_output_path mesh_id "glb" in
     create_task (mkTask mesh_id sketch_path model_type sketch_style output_path Scheduled);;
     mret (mkConvertResponse mesh_id "processing" None None))
    (reraise_as_500 "Conversion failed: ").

(** The [except] clause of [process_conversion]. *)
Definition on_exception (mesh_id : string) (e : Exn) : M unit :=
  set_status mesh_id "failed";;
  set_error mesh_id (str e).

(** Lines 193-200: the branch on the service result. *)
Definition record_outcome (mesh_id : string) (success : bool) : M unit :=
  if success then
    set_status mesh_id "completed";;
    set_progress mesh_id 100
  else
    set_status mesh_id "failed";;
    set_error mesh_id "Conversion process failed".

(** [process_conversion], run from its first statement to its end. *)
Definition process_conversion
    (mesh_id sketch_path model_type sketch_style output_path : string) : M unit :=
  try_except
    (set_progress mesh_id 10;;
     set_progress mesh_id 30;;
     success ← convert_sketch_to_mesh sketch_path model_type sketch_style output_path;
     record_outcome mesh_id success)
    (on_exception mesh_id).

(** The same coroutine cut at its only [await]: one call runs the statements
    up to the next suspension point.  The result is the suspended
    coroutine, or [None] when it has returned. *)
Definition resume (t : Task) : M (option Task) :=
  let mesh_id := t_mesh_id t in
  match t_pc t with
  | Scheduled =>
      try_except
        (set_progress mesh_id 10;;
         set_progress mesh_id 30;;
         mret (Some (mkTask mesh_id (t_sketch_path t) (t_model_type t) (t_sketch_style t)
                       (t_output_path t) Awaiting)))
        (λ e, on_exception mesh_id e;; mret None)
  | Awaiting =>
      try_except
        (success ← convert_sketch_to_mesh (t_sketch_path t) (t_model_type t)
                     (t_sketch_style t) (t_output_path t);
         record_outcome mesh_id success;;
         mret None)
        (λ e, on_exception mesh_id e;; mret None)
  end.

(** [GET /convert/{mesh_id}/status] *)
Definition get_conversion_status (mesh_id : string) : M StatusResponse := λ w,
  match conversion_status w !! mesh_id with
  | None => (Raise (HTTPException 404 "Mesh ID not found"), w)
  | Some status_data =>
      (Ok (mkStatusResponse (status status_data) (Some (progress status_data))
             (error status_data)), w)
  end.

(** [GET /convert/{mesh_id}/download] *)
Definition download_mesh (mesh_id : string) : M FileResponse := λ w,
  match conversion_status w !! mesh_id with
  | None => (Raise (HTTPException 404 "Mesh ID not found"), w)
  | Some job =>
      if negb (bool_decide (status job = "completed")) then
        (Raise (HTTPException 400 ("Conversion not completed. Status: " +:+ status job)), w)
      else
        let file_path := get_output_path mesh_id "glb" in
        match file_exists file_path w with
        | (Ok true, w') =>
            (Ok (mkFileResponse file_path "model/gltf-binary" (mesh_id +:+ ".glb")
                   [("Content-Disposition", "attachment; filename=" +:+ mesh_id +:+ ".glb")]),
             w')
        | (_, w') => (Raise (HTTPException 404 "Mesh file not found"), w')
        end
  end.

(** ** The event loop *)

(** What can happen to the process between two observations: a submission
    is handled, the loop runs one queued coroutine up to its next
    suspension point, or something outside the registry changes the disk
    (the retention sweep, an operator). *)
Inductive Event :=
| Submit (sketch : UploadFile) (model_type sketch_style uuid4 : string)
| RunTask (i : nat)
| DiskChange (files' : gmap string (list Byte.byte)) (writable' : string → bool).

(** Run the [i]-th queued coroutine for one turn. *)
Definition run_task (i : nat) : M unit := λ w,
  match tasks w !! i with
  | None => (Ok (), w)
  | Some t =>
      match resume t (with_tasks (delete i (tasks w)) w) with
      | (Ok (Some t'), w') => (Ok (), with_tasks (tasks w' ++ [t']) w')
      | (Ok None, w') => (Ok (), w')
      | (Raise e, w') => (Raise e, w')
      end
  end.

Definition handle (ev : Event) (w : World) : World :=
  match ev with
  | Submit sketch model_type sketch_style uuid4 =>
      snd (convert_sketch sketch model_type sketch_style uuid4 w)
  | RunTask i => snd (run_task i w)
  | DiskChange files' writable' =>
      mkWorld (conversion_status w) (models_ready w) files' writable' (tasks w) (history w)
  end.

(** [uuid.uuid4()] does not repeat an identifier already in use. *)
Definition fresh_uuid (ev : Event) (w : World) : Prop :=
  match ev with
  | Submit _ _ _ uuid4 => conversion_status w !! uuid4 = None
  | _ => True
  end.

(** The worlds the service can be in: started with an empty registry and no
    coroutine, then any sequence of events. *)
Inductive reachable : World → Prop :=
| reachable_start ready files0 writable0 :
    reachable (mkWorld ∅ ready files0 writable0 [] [])
| reachable_step w ev :
    reachable w → fresh_uuid ev w → reachable (handle ev w).

(** [w'] is [w] some events later. *)
Inductive later (w : World) : World → Prop :=
| later_refl : later w w
| later_step w' ev :
    later w w' → fresh_uuid ev w' → later w (handle ev w').

(** The records written under [mesh_id], oldest first. *)
Definition job_history (mesh_id : string) (w : World) : list Job :=
  snd <$> filter (λ e, fst e = mesh_id) (history w).

End Main.

(** ** A concrete platform

    Stand-ins for the third-party calls, used to run the definitions on
    concrete inputs.  The theorems below hold for every [Platform]. *)
Module Demo.

(** A raw raster: one byte for the row width [w > 0], then the rows of
    intensities; anything else does not decode. *)
Fixpoint chunks (fuel w : nat) (px : list Z) : list (list Z) :=
  match fuel, px with
  | O, _ | _, [] => []
  | S fuel', _ => take w px :: chunks fuel' w (drop w px)
  end.

Definition raw_decode (bytes : list Byte.byte) : option (list (list Z)) :=
  match bytes with
  | [] => None
  | b :: rest =>
      let w := Byte.to_nat b in
      if bool_decide (w = 0%nat) then None
      else if bool_decide (rest = []) then None
      else if bool_decide ((length rest mod w)%nat = 0%nat)
      then Some (chunks (length rest) w ((λ p, Z.of_nat (Byte.to_nat p)) <$> rest))
      else None
  end.

(** An axis-aligned box centred at the origin: 8 corners, 12 triangles. *)
Definition box (extents : Vec3) : Trimesh :=
  let '(ex, ey, ez) := extents in
  let corner (sx sy sz : Q) : Vec3 := (sx * ex, sy * ey, sz * ez)%Q in
  mkMesh
    [ corner (-0.5) (-0.5) (-0.5); corner (-0.5) (-0.5) 0.5;
      corner (-0.5) 0.5 (-0.5); corner (-0.5) 0.5 0.5;
      corner 0.5 (-0.5) (-0.5); corner 0.5 (-0.5) 0.5;
      corner 0.5 0.5 (-0.5); corner 0.5 0.5 0.5 ]%Q
    [ (1, 3, 0); (4, 1, 0); (0, 3, 2); (2, 4, 0); (1, 7, 3); (5, 1, 4);
      (5, 7, 1); (3, 7, 2); (6, 4, 2); (2, 7, 6); (6, 5, 4); (7, 5, 6) ]%nat.

(** A prism with a square section in place of the round cylinder (whose
    rim needs sines and cosines): axis along z, centred at the origin. *)
Definition prism (radius height : Q) (sections : nat) : Trimesh :=
  let lo := (- (height / 2))%Q in
  let hi := (height / 2)%Q in
  mkMesh
    [ (0, 0, lo); (radius, 0, lo); (0, radius, lo); (- radius, 0, lo); (0, - radius, lo);
      (0, 0, hi); (radius, 0, hi); (0, radius, hi); (- radius, 0, hi); (0, - radius, hi) ]%Q
    [ (0, 2, 1); (0, 3, 2); (0, 4, 3); (0, 1, 4);
      (5, 6, 7); (5, 7, 8); (5, 8, 9); (5, 9, 6);
      (1, 2, 7); (1, 7, 6); (2, 3, 8); (2, 8, 7);
      (3, 4, 9); (3, 9, 8); (4, 1, 6); (4, 6, 9) ]%nat.

(** A quarter turn about the x axis: [(x, y, z)] goes to [(x, -z, y)]. *)
Definition quarter_x (m : Trimesh) : Trimesh :=
  mkMesh ((λ v : Vec3, let '(x, y, z) := v in (x, (- z)%Q, y)) <$> vertices m) (faces m).

(** The four magic bytes of a GLB container stand for the whole file. *)
Definition glb_magic (m : Trimesh) : list Byte.byte :=
  [Byte.x67; Byte.x6c; Byte.x54; Byte.x46].

#[export] Instance platform : Platform := {|
  decode_grayscale := raw_decode;
  creation_box := box;
  creation_cylinder := prism;
  rotate_quarter_x := quarter_x;
  export_glb := glb_magic;
  UPLOADS_DIR := "/srv/ml-service/data/uploads";
  OUTPUTS_DIR := "/srv/ml-service/data/outputs";
  MAX_UPLOAD_SIZE_MB := 10;
|}.

(** A 3 by 3 raster, white except for its centre pixel. *)
Definition dot_bytes : list Byte.byte :=
  [Byte.x03; Byte.xff; Byte.xff; Byte.xff; Byte.xff; Byte.x00; Byte.xff;
   Byte.xff; Byte.xff; Byte.xff].
Definition dot : list (list Z) := [[255; 255; 255]; [255; 0; 255]; [255; 255; 255]].


(** A 2 by 2 all-white raster. *)
Definition blank : list (list Z) := [[255; 255]; [255; 255]].

(** Bytes that are not a raster. *)
Definition garbage : list Byte.byte := [Byte.x00; Byte.x01; Byte.x02].

Definition disk0 : gmap string (list Byte.byte) := ∅.
Definition world0 : World := mkWorld ∅ true disk0 (λ _, true) [] [].

(** A running service that knows one job, just created, whose sketch is a
    decodable raster. *)
Definition world1 : World :=
  mkWorld {["job-1" := mkJob "processing" 0 None]} true
    {["/srv/ml-service/data/uploads/job-1.png" := dot_bytes]} (λ _, true) [] [].

(** The same job completed, with and without its artifact on disk. *)
Definition world2 : World :=
  mkWorld {["job-1" := mkJob "completed" 100 None]} true
    {["/srv/ml-service/data/outputs/job-1.glb" := [Byte.x67; Byte.x6c; Byte.x54; Byte.x46]]}
    (λ _, true) [] [].
Definition world3 : World :=
  mkWorld {["job-1" := mkJob "completed" 100 None]} true ∅ (λ _, true) [] [].

(** A decodable sketch is submitted and its coroutine runs its two turns. *)
Definition submit_dot : Event :=
  Submit (mkUpload (Some "image/png") dot_bytes) "cars" "suggestive" "job-1".
Definition after_submit : World := handle submit_dot world0.
Definition after_first_turn : World := handle (RunTask 0) after_submit.
Definition after_run : World := handle (RunTask 0) after_first_turn.

(** The same with bytes that do not decode. *)
Definition submit_garbage : Event :=
  Submit (mkUpload (Some "image/png") garbage) "chairs" "fd" "job-2".
Definition after_garbage_run : World :=
  handle (RunTask 0) (handle (RunTask 0) (handle submit_garbage world0)).

End Demo.

(** ** Vocabulary of the specification *)

(** The pixel in row [y] and column [x] of a decoded raster. *)
Definition pixel (img_array : list (list Z)) (y x : nat) : option Z :=
  img_array !! y ≫= (λ row, row !! x).

Definition ink_at (img_array : list (list Z)) (y x : nat) : Prop :=
  ∃ p, pixel img_array y x = Some p ∧ is_ink p = true.

(** All rows of a decoded raster have the width of the array. *)
Definition rectangular (img_array : list (list Z)) : Prop :=
  ∀ row, row ∈ img_array → length row = snd (shape img_array).

(** The tight bounding box of the drawing: every ink pixel lies inside and
    every side touches an ink pixel. *)
Record tight_bbox (img_array : list (list Z)) (xmin xmax ymin ymax : nat) : Prop := {
  bbox_encloses : ∀ y x, ink_at img_array y x →
    (xmin ≤ x ≤ xmax)%nat ∧ (ymin ≤ y ≤ ymax)%nat;
  bbox_left : ∃ y, ink_at img_array y xmin;
  bbox_right : ∃ y, ink_at img_array y xmax;
  bbox_top : ∃ x, ink_at img_array ymin x;
  bbox_bottom : ∃ x, ink_at img_array ymax x;
}.

(** The number of columns (or rows) a box spans, both ends included. *)
Definition spanned (lo hi : nat) : Z := Z.of_nat hi - Z.of_nat lo + 1.

(** The three terminal and non-terminal records a job goes through. *)
Definition job_created : Job := mkJob "processing" 0 None.
Definition job_accepted : Job := mkJob "processing" 10 None.
Definition job_synthesizing : Job := mkJob "processing" 30 None.
Definition job_completed : Job := mkJob "completed" 100 None.
Definition job_failed (msg : string) : Job := mkJob "failed" 30 (Some msg).

Definition terminal (j : Job) : Prop := status j = "completed" ∨ status j = "failed".

(** ** The sketch analyzer *)

Section Analyzer.

Lemma np_where_from_elem (flags : list bool) (i z : Z) :
  z ∈ np_where_from i flags ↔ ∃ k : nat, z = i + Z.of_nat k ∧ flags !! k = Some true.
Proof.
  revert i. induction flags as [|b flags IH]; intros i; simpl.
  - split; [intros Hin; inversion Hin | intros (k & _ & Hk); destruct k; discriminate].
  - destruct b.
    + rewrite elem_of_cons, IH. split.
      * intros [-> | (k & -> & Hk)]; [exists 0%nat | exists (S k)]; split; simpl; auto; lia.
      * intros (k & -> & Hk). destruct k as [|k]; [left; lia | right].
        exists k. split; [lia | exact Hk].
    + rewrite IH. split.
      * intros (k & -> & Hk). exists (S k). split; [lia | exact Hk].
      * intros (k & -> & Hk). destruct k as [|k]; [discriminate |].
        exists k. split; [lia | exact Hk].
Qed.

Lemma np_where_from_lower (flags : list bool) (i z : Z) :
  z ∈ np_where_from i flags → hd 0 (np_where_from i flags) ≤ z.
Proof.
  revert i. induction flags as [|b flags IH]; intros i Hin; simpl in *.
  - inversion Hin.
  - destruct b; simpl.
    + apply np_where_from_elem with (flags := true :: flags) in Hin.
      destruct Hin as (k & -> & _). lia.
    + apply IH, Hin.
Qed.

Lemma last_cons_cons {A} (a b : A) (l : list A) (d : A) :
  List.last (a :: b :: l) d = List.last (b :: l) d.
Proof. reflexivity. Qed.

Lemma np_where_from_upper (flags : list bool) (i z : Z) :
  z ∈ np_where_from i flags → z ≤ List.last (np_where_from i flags) 0.
Proof.
  revert i z. induction flags as [|b flags IH]; intros i z Hin; simpl in *.
  - inversion Hin.
  - destruct b; [| apply IH, Hin].
    destruct (np_where_from (i + 1) flags) as [|z' rest] eqn:Hrest.
    + apply list_elem_of_singleton in Hin. simpl. lia.
    + rewrite last_cons_cons.
      assert (Hin' : z' ∈ np_where_from (i + 1) flags) by (rewrite Hrest; left).
      pose proof (IH (i + 1) z' Hin') as Hz'. rewrite Hrest in Hz'.
      apply elem_of_cons in Hin as [-> | Hin].
      * apply np_where_from_elem in Hin' as (k & -> & _). lia.
      * pose proof (IH (i + 1) z) as Hz. rewrite Hrest in Hz. apply Hz, Hin.
Qed.

Lemma hd_elem (l : list Z) : l ≠ [] → hd 0 l ∈ l.
Proof. destruct l; [congruence | intros _; left]. Qed.

Lemma last_elem (l : list Z) : l ≠ [] → List.last l 0 ∈ l.
Proof.
  induction l as [|a [|b l] IH]; intros Hne; [congruence | left |].
  rewrite last_cons_cons. right. apply IH. congruence.
Qed.

Lemma any_true (flags : list bool) :
  any flags = true ↔ ∃ k : nat, flags !! k = Some true.
Proof.
  unfold any. rewrite existsb_exists. split.
  - intros (b & Hin & Hb). unfold id in Hb. subst b.
    apply list_elem_of_In, list_elem_of_lookup in Hin. exact Hin.
  - intros (k & Hk). exists true. split; [| reflexivity].
    apply list_elem_of_In, list_elem_of_lookup. eauto.
Qed.

Lemma np_where_nonempty (flags : list bool) :
  any flags = true → np_where flags ≠ [].
Proof.
  intros (k & Hk)%any_true Hnil.
  assert (Hin : 0 + Z.of_nat k ∈ np_where flags).
  { apply np_where_from_elem. eauto. }
  rewrite Hnil in Hin. inversion Hin.
Qed.

(** The first and last index returned by [np.where] are the least and the
    greatest position of a true flag. *)
Lemma first_last_spec (flags : list bool) :
  any flags = true →
  ∃ lo hi : nat,
    first_last (np_where flags) = (Z.of_nat lo, Z.of_nat hi) ∧
    flags !! lo = Some true ∧ flags !! hi = Some true ∧
    ∀ k : nat, flags !! k = Some true → (lo ≤ k ≤ hi)%nat.
Proof.
  intros Hany. pose proof (np_where_nonempty _ Hany) as Hne.
  pose proof (hd_elem _ Hne) as Hhd. pose proof (last_elem _ Hne) as Hlast.
  unfold np_where in *.
  apply np_where_from_elem in Hhd as (lo & Hlo & Hflo).
  apply np_where_from_elem in Hlast as (hi & Hhi & Hfhi).
  exists lo, hi. unfold first_last. rewrite Hlo, Hhi. simpl.
  repeat split; auto.
  - assert (Hin : 0 + Z.of_nat k ∈ np_where_from 0 flags) by (apply np_where_from_elem; eauto).
    apply np_where_from_lower in Hin. lia.
  - assert (Hin : 0 + Z.of_nat k ∈ np_where_from 0 flags) by (apply np_where_from_elem; eauto).
    apply np_where_from_upper in Hin. lia.
Qed.

Lemma any_axis1_lookup (img_array : list (list Z)) (y : nat) :
  any_axis1 img_array !! y = Some true ↔ ∃ x, ink_at img_array y x.
Proof.
  unfold any_axis1, ink_at, pixel. rewrite list_lookup_fmap.
  destruct (img_array !! y) as [row|] eqn:Hrow; simpl.
  - split.
    + intros [= Hex]. apply existsb_exists in Hex as (p & Hin & Hp).
      apply list_elem_of_In, list_elem_of_lookup in Hin as (x & Hx). eauto.
    + intros (x & p & Hx & Hp). f_equal. apply existsb_exists. exists p.
      split; [| exact Hp]. apply list_elem_of_In, list_elem_of_lookup. eauto.
  - split; [discriminate | intros (x & p & Hx & _); discriminate].
Qed.

Lemma any_axis0_lookup (img_array : list (list Z)) (x : nat) :
  rectangular img_array →
  any_axis0 img_array !! x = Some true ↔ ∃ y, ink_at img_array y x.
Proof.
  intros Hrect. unfold any_axis0, ink_at, pixel. rewrite list_lookup_fmap. split.
  - destruct (seq 0 (snd (shape img_array)) !! x) as [x'|] eqn:Hseq; simpl; [| discriminate].
    apply lookup_seq in Hseq as [-> _]. simpl.
    intros [= Hex]. apply existsb_exists in Hex as (row & Hin & Hp).
    apply list_elem_of_In, list_elem_of_lookup in Hin as (y & Hy).
    destruct (row !! x) as [p|] eqn:Hpx; [| discriminate].
    exists y, p. rewrite Hy. simpl. auto.
  - intros (y & p & Hx & Hp).
    destruct (img_array !! y) as [row|] eqn:Hrow; simpl in Hx; [| discriminate].
    assert (Hin : row ∈ img_array) by (apply list_elem_of_lookup; eauto).
    assert (Hlt : (x < snd (shape img_array))%nat).
    { rewrite <- (Hrect row Hin). eapply lookup_lt_Some, Hx. }
    rewrite (lookup_seq_lt _ _ _ Hlt). simpl. f_equal.
    apply existsb_exists. exists row. split; [apply list_elem_of_In, Hin |].
    rewrite Hx. exact Hp.
Qed.

End Analyzer.

Section AnalyzerResults.

Definition no_ink (img_array : list (list Z)) : Prop := ∀ y x, ¬ ink_at img_array y x.

Lemma no_ink_rows (img_array : list (list Z)) :
  no_ink img_array → ∀ row p, row ∈ img_array → p ∈ row → is_ink p = false.
Proof.
  intros Hno row p (y & Hy)%list_elem_of_lookup (x & Hx)%list_elem_of_lookup.
  destruct (is_ink p) eqn:Hp; [| reflexivity].
  exfalso. apply (Hno y x). exists p. unfold pixel. rewrite Hy. simpl. auto.
Qed.

Lemma filter_none (row : list Z) :
  (∀ p, p ∈ row → is_ink p = false) → filter (λ p, is_ink p = true) row = [].
Proof.
  induction row as [|p row IH]; intros Hrow; [reflexivity |].
  rewrite filter_cons. destruct (decide (is_ink p = true)) as [Hp | _].
  - rewrite Hrow in Hp by left. discriminate.
  - apply IH. intros q Hq. apply Hrow. right. exact Hq.
Qed.

Lemma count_ink_none (img_array : list (list Z)) :
  (∀ row p, row ∈ img_array → p ∈ row → is_ink p = false) → count_ink img_array = 0.
Proof.
  induction img_array as [|row img IH]; intros Hno; [reflexivity |].
  unfold count_ink in *. simpl. rewrite filter_none.
  - rewrite IH; [reflexivity |]. intros r p Hr. apply Hno. right. exact Hr.
  - intros p. apply Hno. left.
Qed.

Lemma any_axis1_none (img_array : list (list Z)) :
  no_ink img_array → any (any_axis1 img_array) = false.
Proof.
  intros Hno. destruct (any (any_axis1 img_array)) eqn:Hany; [| reflexivity].
  apply any_true in Hany as (y & Hy). apply any_axis1_lookup in Hy as (x & Hx).
  destruct (Hno y x Hx).
Qed.

(** With some ink on a rectangular raster, the analysis takes the first
    branch and its indices are the sides of the tight bounding box. *)
Lemma sketch_statistics_ink (img_array : list (list Z)) :
  rectangular img_array → (∃ y x, ink_at img_array y x) →
  ∃ xmin xmax ymin ymax : nat,
    tight_bbox img_array xmin xmax ymin ymax ∧
    sketch_statistics img_array =
      mkStats (inject_Z (count_ink img_array) / inject_Z (array_size img_array))%Q
        (inject_Z (Z.of_nat xmax - Z.of_nat xmin) /
         inject_Z (Z.max (Z.of_nat ymax - Z.of_nat ymin) 1))%Q
        (Z.of_nat xmax - Z.of_nat xmin) (Z.of_nat ymax - Z.of_nat ymin).
Proof.
  intros Hrect (y0 & x0 & Hink).
  assert (Hrows : any (any_axis1 img_array) = true).
  { apply any_true. exists y0. apply any_axis1_lookup. eauto. }
  assert (Hcols : any (any_axis0 img_array) = true).
  { apply any_true. exists x0. apply any_axis0_lookup; eauto. }
  destruct (first_last_spec _ Hrows) as (ymin & ymax & Hy & Hymin & Hymax & Hyb).
  destruct (first_last_spec _ Hcols) as (xmin & xmax & Hx & Hxmin & Hxmax & Hxb).
  exists xmin, xmax, ymin, ymax. split.
  - constructor.
    + intros y x Hyx. split.
      * apply Hxb, any_axis0_lookup; eauto.
      * apply Hyb, any_axis1_lookup; eauto.
    + apply any_axis0_lookup; auto.
    + apply any_axis0_lookup; auto.
    + apply any_axis1_lookup; auto.
    + apply any_axis1_lookup; auto.
  - unfold sketch_statistics. rewrite Hrows, Hcols, Hy, Hx. reflexivity.
Qed.

(** C4: a decoded sketch without any pixel below 200 gets coverage 0 and the
    defaults aspect ratio 1.0, width 0 and height 0; the analysis is a total
    function, it has no failing case. *)
Theorem C4_blank_sketch_statistics (img_array : list (list Z)) :
  0 < array_size img_array →
  no_ink img_array →
  (coverage (sketch_statistics img_array) == 0)%Q ∧
  aspect_ratio (sketch_statistics img_array) = 1%Q ∧
  width (sketch_statistics img_array) = 0 ∧
  height (sketch_statistics img_array) = 0.
Proof.
  intros Hsize Hno. unfold sketch_statistics.
  rewrite (any_axis1_none _ Hno). simpl.
  rewrite (count_ink_none _ (no_ink_rows _ Hno)).
  split; [simpl; unfold Qdiv; apply Qmult_0_l | repeat split].
Qed.

Lemma no_ink_blank : no_ink Demo.blank.
Proof.
  intros y x (p & Hp & Hink). unfold pixel, Demo.blank in Hp.
  destruct y as [|[|y]]; simpl in Hp; try discriminate;
    destruct x as [|[|x]]; simpl in Hp; try discriminate;
    injection Hp as <-; discriminate.
Qed.

Lemma C4_blank_sketch_statistics_witness :
  (coverage (sketch_statistics Demo.blank) == 0)%Q ∧
  aspect_ratio (sketch_statistics Demo.blank) = 1%Q ∧
  width (sketch_statistics Demo.blank) = 0 ∧
  height (sketch_statistics Demo.blank) = 0.
Proof.
  apply (C4_blank_sketch_statistics Demo.blank); [reflexivity | exact no_ink_blank].
Defined.

(** C5 (as amended): with at least one ink pixel, [width] and [height] are
    the differences between the last and the first ink column and row of the
    tight bounding box, one less than the number of columns and rows it
    spans, and the aspect ratio is that width over [max(height, 1)]. *)
Theorem C5_bbox_index_difference (img_array : list (list Z)) :
  rectangular img_array →
  (∃ y x, ink_at img_array y x) →
  ∃ xmin xmax ymin ymax : nat,
    tight_bbox img_array xmin xmax ymin ymax ∧
    width (sketch_statistics img_array) = spanned xmin xmax - 1 ∧
    height (sketch_statistics img_array) = spanned ymin ymax - 1 ∧
    aspect_ratio (sketch_statistics img_array) =
      (inject_Z (spanned xmin xmax - 1) / inject_Z (Z.max (spanned ymin ymax - 1) 1))%Q.
Proof.
  intros Hrect Hink.
  destruct (sketch_statistics_ink _ Hrect Hink) as (xmin & xmax & ymin & ymax & Hbox & ->).
  exists xmin, xmax, ymin, ymax. unfold spanned. simpl.
  replace (Z.of_nat xmax - Z.of_nat xmin + 1 - 1) with (Z.of_nat xmax - Z.of_nat xmin) by lia.
  replace (Z.of_nat ymax - Z.of_nat ymin + 1 - 1) with (Z.of_nat ymax - Z.of_nat ymin) by lia.
  auto.
Qed.

Lemma rectangular_dot : rectangular Demo.dot.
Proof.
  intros row Hrow. unfold Demo.dot in Hrow.
  repeat (apply elem_of_cons in Hrow as [-> | Hrow]; [reflexivity |]).
  inversion Hrow.
Qed.

Lemma ink_at_dot (y x : nat) : ink_at Demo.dot y x ↔ y = 1%nat ∧ x = 1%nat.
Proof.
  split.
  - intros (p & Hp & Hink). unfold pixel, Demo.dot in Hp.
    destruct y as [|[|[|y]]]; simpl in Hp; try discriminate;
      destruct x as [|[|[|x]]]; simpl in Hp; try discriminate;
      injection Hp as <-; try discriminate; auto.
  - intros [-> ->]. exists 0. split; reflexivity.
Qed.

Lemma C5_bbox_index_difference_witness :
  ∃ xmin xmax ymin ymax : nat,
    tight_bbox Demo.dot xmin xmax ymin ymax ∧
    width (sketch_statistics Demo.dot) = spanned xmin xmax - 1 ∧
    height (sketch_statistics Demo.dot) = spanned ymin ymax - 1 ∧
    aspect_ratio (sketch_statistics Demo.dot) =
      (inject_Z (spanned xmin xmax - 1) / inject_Z (Z.max (spanned ymin ymax - 1) 1))%Q.
Proof.
  apply (C5_bbox_index_difference Demo.dot);
    [exact rectangular_dot | exists 1%nat, 1%nat; apply ink_at_dot; auto].
Defined.

(** C5 as stated fails: the drawing of [Demo.dot] occupies the single column
    1 and the single row 1, its tight bounding box spans one column and one
    row, yet the analysis reports width 0 and height 0. *)
Lemma C5_single_column_width_zero :
  tight_bbox Demo.dot 1 1 1 1 ∧
  spanned 1 1 = 1 ∧
  width (sketch_statistics Demo.dot) = 0 ∧
  height (sketch_statistics Demo.dot) = 0 ∧
  ¬ (width (sketch_statistics Demo.dot) = spanned 1 1 ∧
     height (sketch_statistics Demo.dot) = spanned 1 1).
Proof.
  split; [| repeat split; try reflexivity; intros [Hw _]; discriminate Hw].
  constructor; try (exists 1%nat; apply ink_at_dot; auto).
  intros y x [-> ->]%ink_at_dot. lia.
Qed.

End AnalyzerResults.

(** ** The shape synthesizer *)





Section Synthesizer.
Context `{!Platform}.








Lemma count_ink_nonneg (img_array : list (list Z)) : 0 ≤ count_ink img_array.
Proof.
  unfold count_ink. induction img_array as [|row img IH]; simpl; lia.
Qed.

Lemma coverage_eq (img_array : list (list Z)) :
  coverage (sketch_statistics img_array) =
  (inject_Z (count_ink img_array) / inject_Z (array_size img_array))%Q.
Proof.
  unfold sketch_statistics.
  destruct (any (any_axis1 img_array) && any (any_axis0 img_array)); [| reflexivity].
  destruct (first_last (np_where (any_axis1 img_array))).
  destruct (first_last (np_where (any_axis0 img_array))). reflexivity.
Qed.

Lemma coverage_nonneg (img_array : list (list Z)) :
  (0 <= coverage (sketch_statistics img_array))%Q.
Proof.
  rewrite coverage_eq. unfold array_size.
  set (n := (fst (shape img_array) * snd (shape img_array))%nat).
  pose proof (count_ink_nonneg img_array) as Hc.
  destruct n as [|n].
  - unfold Qdiv. simpl. unfold Qinv. simpl. rewrite Qmult_0_r. apply Qle_refl.
  - apply Qle_shift_div_l.
    + unfold Qlt. simpl. lia.
    + rewrite Qmult_0_l. unfold Qle. simpl. lia.
Qed.
















End Synthesizer.

Section SynthesizerRuns.
Import Demo.



End SynthesizerRuns.

(** ** The service wrapper and the submission endpoint *)

Ltac unfold_monad :=
  unfold try_except, mbind, M_bind, mret, M_ret, raise, get_world in *.

Section Pipeline.
Context `{!Platform}.

(** What the demo generator needs in order to succeed: the sketch file is
    there, PIL decodes it, and the output path can be written. *)
Definition pipeline_ready (w : World) (sketch_path output_path : string) : Prop :=
  ∃ bytes img_array,
    files w !! sketch_path = Some bytes ∧
    decode_grayscale bytes = Some img_array ∧
    writable w output_path = true.

(** The generator never raises: it writes the artifact and returns [True],
    or catches the exception, leaves the disk alone and returns [False]. *)
Lemma generate_mesh_from_sketch_cases (sketch_path model_type output_path : string) (w : World) :
  (∃ bytes img_array,
      files w !! sketch_path = Some bytes ∧
      decode_grayscale bytes = Some img_array ∧
      writable w output_path = true ∧
      generate_mesh_from_sketch sketch_path model_type output_path w =
        (Ok true,
         with_files (<[output_path := export_glb (mesh_of_sketch img_array model_type)]> (files w))
           w)) ∨
  (¬ pipeline_ready w sketch_path output_path ∧
   generate_mesh_from_sketch sketch_path model_type output_path w = (Ok false, w)).
Proof.
  unfold generate_mesh_from_sketch, open_grayscale, read_bytes, write_bytes, pipeline_ready.
  unfold_monad.
  destruct (files w !! sketch_path) as [bytes|] eqn:Hfile.
  - destruct (decode_grayscale bytes) as [img|] eqn:Hdec.
    + destruct (writable w output_path) eqn:Hwr.
      * left. exists bytes, img. auto.
      * right. split; [| reflexivity].
        intros (b & i & _ & _ & Hw). congruence.
    + right. split; [| reflexivity].
      intros (b & i & Hb & Hd & _). congruence.
  - right. split; [| reflexivity].
    intros (b & i & Hb & _). congruence.
Qed.

Lemma convert_sketch_to_mesh_cases
    (sketch_path model_type sketch_style output_path : string) (w : World) :
  (∃ bytes img_array,
      files w !! sketch_path = Some bytes ∧
      decode_grayscale bytes = Some img_array ∧
      writable w output_path = true ∧
      convert_sketch_to_mesh sketch_path model_type sketch_style output_path w =
        (Ok true,
         with_files (<[output_path := export_glb (mesh_of_sketch img_array model_type)]> (files w))
           w)) ∨
  (¬ pipeline_ready w sketch_path output_path ∧
   convert_sketch_to_mesh sketch_path model_type sketch_style output_path w = (Ok false, w)).
Proof.
  unfold convert_sketch_to_mesh, path_exists, USE_DEMO_MODE. unfold_monad.
  destruct (generate_mesh_from_sketch_cases sketch_path model_type output_path w)
    as [(bytes & img & Hfile & Hdec & Hwr & Hrun) | (Hnot & Hrun)].
  - left. exists bytes, img. simpl.
    rewrite bool_decide_eq_true_2 by (rewrite Hfile; eauto). simpl.
    rewrite Hrun. auto.
  - right. split; [exact Hnot |]. simpl.
    destruct (bool_decide (is_Some (files w !! sketch_path))); simpl; [| reflexivity].
    rewrite Hrun. reflexivity.
Qed.

(** The service changes nothing but the disk and never raises. *)
Lemma convert_sketch_to_mesh_frame
    (sketch_path model_type sketch_style output_path : string) (w : World) :
  ∃ success files',
    convert_sketch_to_mesh sketch_path model_type sketch_style output_path w =
      (Ok success, with_files files' w) ∧
    (success = true ↔ pipeline_ready w sketch_path output_path).
Proof.
  destruct (convert_sketch_to_mesh_cases sketch_path model_type sketch_style output_path w)
    as [(bytes & img & Hfile & Hdec & Hwr & Hrun) | (Hnot & Hrun)].
  - eexists true, _. split; [exact Hrun |]. split; [| reflexivity].
    intros _. exists bytes, img. auto.
  - exists false, (files w). split.
    + rewrite Hrun. destruct w; reflexivity.
    + split; [discriminate | intros Hready; destruct (Hnot Hready)].
Qed.

(** Writes to an entry that exists. *)
Lemma registry_update_present (k : string) (f : Job → Job) (j : Job) (w : World) :
  conversion_status w !! k = Some j →
  registry_update k f w =
    (Ok (), with_registry (<[k := f j]> (conversion_status w)) (history w ++ [(k, f j)]) w).
Proof. intros Hj. unfold registry_update, registry_setitem. rewrite Hj. reflexivity. Qed.

Lemma registry_update_absent (k : string) (f : Job → Job) (w : World) :
  conversion_status w !! k = None → registry_update k f w = (Raise (KeyError k), w).
Proof. intros Hj. unfold registry_update. rewrite Hj. reflexivity. Qed.

(** The two writes of each branch of [record_outcome], and of the [except]
    clause, on an entry that exists. *)
Lemma record_outcome_present (mesh_id : string) (success : bool) (j : Job) (w : World) :
  conversion_status w !! mesh_id = Some j →
  record_outcome mesh_id success w =
    if success then
      (Ok (),
       with_registry (<[mesh_id := mkJob "completed" 100 (error j)]> (conversion_status w))
         (history w ++ [(mesh_id, mkJob "completed" (progress j) (error j));
                        (mesh_id, mkJob "completed" 100 (error j))]) w)
    else
      (Ok (),
       with_registry
         (<[mesh_id := mkJob "failed" (progress j) (Some "Conversion process failed")]>
            (conversion_status w))
         (history w ++ [(mesh_id, mkJob "failed" (progress j) (error j));
                        (mesh_id, mkJob "failed" (progress j) (Some "Conversion process failed"))])
         w).
Proof.
  intros Hj. unfold record_outcome, set_status, set_progress, set_error. unfold_monad.
  destruct success.
  - rewrite (registry_update_present _ _ j) by exact Hj.
    erewrite registry_update_present by (simpl; apply lookup_insert_eq).
    unfold with_registry. simpl. rewrite insert_insert_eq, <- app_assoc. reflexivity.
  - rewrite (registry_update_present _ _ j) by exact Hj.
    erewrite registry_update_present by (simpl; apply lookup_insert_eq).
    unfold with_registry. simpl. rewrite insert_insert_eq, <- app_assoc. reflexivity.
Qed.

Lemma on_exception_present (mesh_id : string) (e : Exn) (j : Job) (w : World) :
  conversion_status w !! mesh_id = Some j →
  on_exception mesh_id e w =
    (Ok (),
     with_registry (<[mesh_id := mkJob "failed" (progress j) (Some (str e))]> (conversion_status w))
       (history w ++ [(mesh_id, mkJob "failed" (progress j) (error j));
                      (mesh_id, mkJob "failed" (progress j) (Some (str e)))]) w).
Proof.
  intros Hj. unfold on_exception, set_status, set_error. unfold_monad.
  rewrite (registry_update_present _ _ j) by exact Hj.
  erewrite registry_update_present by (simpl; apply lookup_insert_eq).
  unfold with_registry. simpl. rewrite insert_insert_eq, <- app_assoc. reflexivity.
Qed.

(** The statements before the [await], on an entry that exists. *)
Lemma progress_writes_present (mesh_id : string) (j : Job) (w : World) :
  conversion_status w !! mesh_id = Some j →
  (set_progress mesh_id 10;; set_progress mesh_id 30) w =
    (Ok (),
     with_registry (<[mesh_id := mkJob (status j) 30 (error j)]> (conversion_status w))
       (history w ++ [(mesh_id, mkJob (status j) 10 (error j));
                      (mesh_id, mkJob (status j) 30 (error j))]) w).
Proof.
  intros Hj. unfold set_progress. unfold_monad.
  rewrite (registry_update_present _ _ j) by exact Hj.
  erewrite registry_update_present by (simpl; apply lookup_insert_eq).
  unfold with_registry. simpl. rewrite insert_insert_eq, <- app_assoc. reflexivity.
Qed.

End Pipeline.

Section Submission.
Context `{!Platform}.

(** The extension [save_upload] derives from the declared content type. *)
Definition upload_extension (file : UploadFile) : string :=
  match content_type file with
  | Some ct =>
      if contains "jpeg" ct || contains "jpg" ct then "jpg"
      else if contains "png" ct then "png"
      else "png"
  | None => "png"
  end.

Definition upload_path (file : UploadFile) (uuid4 : string) : string :=
  path_join UPLOADS_DIR (uuid4 +:+ "." +:+ upload_extension file).

(** Every check a submission goes through before a job is created.  None of
    them looks into the uploaded bytes. *)
Definition admitted (w : World) (sketch : UploadFile) (model_type sketch_style uuid4 : string)
    : Prop :=
  models_ready w = true ∧
  model_type ∈ ["cars"; "chairs"] ∧
  sketch_style ∈ ["suggestive"; "fd"; "handdrawn"] ∧
  (∃ ct, content_type sketch = Some ct ∧ startswith ct "image/" = true) ∧
  ¬ (inject_Z MAX_UPLOAD_SIZE_MB <
     inject_Z (Z.of_nat (length (content sketch))) / inject_Z (1024 * 1024))%Q ∧
  writable w (upload_path sketch uuid4) = true.

(** The world after an accepted submission. *)
Definition submitted (w : World) (sketch : UploadFile) (model_type sketch_style uuid4 : string)
    : World :=
  mkWorld (<[uuid4 := job_created]> (conversion_status w)) (models_ready w)
    (<[upload_path sketch uuid4 := content sketch]> (files w)) (writable w)
    (tasks w ++ [mkTask uuid4 (upload_path sketch uuid4) model_type sketch_style
                   (get_output_path uuid4 "glb") Scheduled])
    (history w ++ [(uuid4, job_created)]).

(** [convert_sketch] either passes every check, stores the upload, creates
    the entry and queues the coroutine, or raises an [HTTPException] and
    leaves the world as it was. *)
Lemma convert_sketch_cases (sketch : UploadFile) (model_type sketch_style uuid4 : string)
    (w : World) :
  (admitted w sketch model_type sketch_style uuid4 ∧
   convert_sketch sketch model_type sketch_style uuid4 w =
     (Ok (mkConvertResponse uuid4 "processing" None None),
      submitted w sketch model_type sketch_style uuid4)) ∨
  (¬ admitted w sketch model_type sketch_style uuid4 ∧
   ∃ code detail,
     convert_sketch sketch model_type sketch_style uuid4 w =
       (Raise (HTTPException code detail), w)).
Proof.
  unfold admitted, convert_sketch, save_upload, write_bytes, registry_setitem, create_task.
  unfold_monad. simpl.
  destruct (models_ready w) eqn:Hready; simpl;
    [| right; split; [intros (? & _); discriminate | eauto]].
  destruct (bool_decide (model_type ∈ ["cars"; "chairs"])) eqn:Hmt; simpl;
    [apply bool_decide_eq_true in Hmt
    | apply bool_decide_eq_false in Hmt; right; split; [tauto | eauto]].
  destruct (bool_decide (sketch_style ∈ ["suggestive"; "fd"; "handdrawn"])) eqn:Hss; simpl;
    [apply bool_decide_eq_true in Hss
    | apply bool_decide_eq_false in Hss; right; split; [tauto | eauto]].
  destruct (content_type sketch) as [ct|] eqn:Hct; simpl;
    [| right; split; [intros (_ & _ & _ & (? & ? & _) & _); discriminate | eauto]].
  destruct (startswith ct "image/") eqn:Himg; simpl;
    [| right; split; [intros (_ & _ & _ & (? & [= <-] & ?) & _); congruence | eauto]].
  destruct (bool_decide
              (inject_Z MAX_UPLOAD_SIZE_MB <
               inject_Z (Z.of_nat (length (content sketch))) / inject_Z (1024 * 1024))%Q)
    eqn:Hsize; simpl;
    [apply bool_decide_eq_true in Hsize; right; split; [tauto | eauto]
    | apply bool_decide_eq_false in Hsize].
  assert (Hp : path_join UPLOADS_DIR
                 (uuid4 +:+ "." +:+
                  (if contains "jpeg" ct || contains "jpg" ct then "jpg"
                   else if contains "png" ct then "png" else "png")) =
               upload_path sketch uuid4)
    by (unfold upload_path, upload_extension; rewrite Hct; reflexivity).
  rewrite !Hp.
  destruct (writable w (upload_path sketch uuid4)) eqn:Hwr; simpl.
  - left. split; [| reflexivity]. repeat split; eauto.
  - right. split; [intros (_ & _ & _ & _ & _ & ?); congruence | eauto].
Qed.

End Submission.

(** ** The background coroutine *)

Section Orchestrator.
Context `{!Platform}.

(** The record a job ends with, given the one it had before the first
    statement of the coroutine. *)
Definition outcome_job (j : Job) (success : bool) : Job :=
  if success then mkJob "completed" 100 (error j)
  else mkJob "failed" 30 (Some "Conversion process failed").

(** The records written by one run, in order. *)
Definition outcome_writes (j : Job) (success : bool) : list Job :=
  [mkJob (status j) 10 (error j); mkJob (status j) 30 (error j)] ++
  (if success
   then [mkJob "completed" 30 (error j); mkJob "completed" 100 (error j)]
   else [mkJob "failed" 30 (error j); mkJob "failed" 30 (Some "Conversion process failed")]).

Lemma pipeline_ready_registry (w : World) (r : gmap string Job) (h : list (string * Job))
    (sketch_path output_path : string) :
  pipeline_ready (with_registry r h w) sketch_path output_path ↔
  pipeline_ready w sketch_path output_path.
Proof. reflexivity. Qed.

(** One uninterrupted run on an entry that exists: no exception escapes and
    the entry ends completed or failed. *)
Lemma process_conversion_present
    (mesh_id sketch_path model_type sketch_style output_path : string) (j : Job) (w : World) :
  conversion_status w !! mesh_id = Some j →
  ∃ success files',
    (success = true ↔ pipeline_ready w sketch_path output_path) ∧
    process_conversion mesh_id sketch_path model_type sketch_style output_path w =
      (Ok (),
       mkWorld (<[mesh_id := outcome_job j success]> (conversion_status w)) (models_ready w)
         files' (writable w) (tasks w)
         (history w ++ ((λ r, (mesh_id, r)) <$> outcome_writes j success))).
Proof.
  intros Hj. unfold process_conversion.
  pose proof (progress_writes_present mesh_id j w Hj) as Hwrites.
  unfold_monad. unfold set_progress in *. unfold_monad.
  destruct (registry_update mesh_id (λ j0, mkJob (status j0) 10 (error j0)) w)
    as [[[]|e] w1] eqn:H10; [| discriminate].
  destruct (registry_update mesh_id (λ j0, mkJob (status j0) 30 (error j0)) w1)
    as [[[]|e] w2] eqn:H30; [| discriminate].
  injection Hwrites as ->.
  match goal with
  | |- context [convert_sketch_to_mesh ?a ?b ?c ?d ?w0] =>
      destruct (convert_sketch_to_mesh_frame a b c d w0) as (success & files' & Hrun & Hiff)
  end.
  rewrite Hrun. exists success, files'. split; [exact Hiff |].
  erewrite record_outcome_present by (simpl; apply lookup_insert_eq).
  unfold outcome_job, outcome_writes, with_registry, with_files.
  destruct success; simpl; rewrite insert_insert_eq, <- app_assoc; reflexivity.
Qed.

(** Cutting the coroutine at its [await] does not change what it does:
    resuming twice is one uninterrupted run. *)
Lemma resume_twice (t : Task) (w : World) :
  t_pc t = Scheduled →
  process_conversion (t_mesh_id t) (t_sketch_path t) (t_model_type t) (t_sketch_style t)
    (t_output_path t) w =
  match resume t w with
  | (Ok (Some t'), w1) =>
      match resume t' w1 with
      | (Ok _, w2) => (Ok (), w2)
      | (Raise e, w2) => (Raise e, w2)
      end
  | (Ok None, w1) => (Ok (), w1)
  | (Raise e, w1) => (Raise e, w1)
  end.
Proof.
  intros Hpc. unfold resume, process_conversion. rewrite Hpc. unfold_monad.
  destruct (set_progress (t_mesh_id t) 10 w) as [[[]|e] w1]; simpl.
  - destruct (set_progress (t_mesh_id t) 30 w1) as [[[]|e] w2]; simpl.
    + destruct (convert_sketch_to_mesh _ _ _ _ w2) as [[b|e] w3]; simpl.
      * destruct (record_outcome (t_mesh_id t) b w3) as [[[]|e] w4]; simpl; [reflexivity |].
        destruct (on_exception (t_mesh_id t) e w4) as [[[]|e'] w5]; reflexivity.
      * destruct (on_exception (t_mesh_id t) e w3) as [[[]|e'] w4]; reflexivity.
    + destruct (on_exception (t_mesh_id t) e w2) as [[[]|e'] w3]; reflexivity.
  - destruct (on_exception (t_mesh_id t) e w1) as [[[]|e'] w2]; reflexivity.
Qed.

(** The first turn of the coroutine on an entry that exists. *)
Lemma resume_scheduled (t : Task) (j : Job) (w : World) :
  t_pc t = Scheduled →
  conversion_status w !! t_mesh_id t = Some j →
  resume t w =
    (Ok (Some (mkTask (t_mesh_id t) (t_sketch_path t) (t_model_type t) (t_sketch_style t)
                 (t_output_path t) Awaiting)),
     with_registry (<[t_mesh_id t := mkJob (status j) 30 (error j)]> (conversion_status w))
       (history w ++ [(t_mesh_id t, mkJob (status j) 10 (error j));
                      (t_mesh_id t, mkJob (status j) 30 (error j))]) w).
Proof.
  intros Hpc Hj. unfold resume. rewrite Hpc.
  pose proof (progress_writes_present (t_mesh_id t) j w Hj) as Hwrites.
  unfold_monad.
  destruct (set_progress (t_mesh_id t) 10 w) as [[[]|e] w1]; [| discriminate].
  destruct (set_progress (t_mesh_id t) 30 w1) as [[[]|e] w2]; [| discriminate].
  injection Hwrites as ->. reflexivity.
Qed.

(** The second turn: the service call and the terminal writes. *)
Lemma resume_awaiting (t : Task) (j : Job) (w : World) :
  t_pc t = Awaiting →
  conversion_status w !! t_mesh_id t = Some j →
  ∃ success files',
    (success = true ↔ pipeline_ready w (t_sketch_path t) (t_output_path t)) ∧
    resume t w =
      (Ok None,
       mkWorld
         (<[t_mesh_id t :=
              if success then mkJob "completed" 100 (error j)
              else mkJob "failed" (progress j) (Some "Conversion process failed")]>
            (conversion_status w))
         (models_ready w) files' (writable w) (tasks w)
         (history w ++
          if success
          then [(t_mesh_id t, mkJob "completed" (progress j) (error j));
                (t_mesh_id t, mkJob "completed" 100 (error j))]
          else [(t_mesh_id t, mkJob "failed" (progress j) (error j));
                (t_mesh_id t, mkJob "failed" (progress j) (Some "Conversion process failed"))])).
Proof.
  intros Hpc Hj. unfold resume. rewrite Hpc. unfold_monad.
  destruct (convert_sketch_to_mesh_frame (t_sketch_path t) (t_model_type t) (t_sketch_style t)
              (t_output_path t) w) as (success & files' & Hrun & Hiff).
  rewrite Hrun. exists success, files'. split; [exact Hiff |].
  erewrite record_outcome_present by (simpl; exact Hj).
  destruct success; reflexivity.
Qed.

End Orchestrator.

Section OrchestratorResults.
Context `{!Platform}.

(** C6: run on a job that exists, the coroutine returns normally whatever
    happens inside.  When the sketch file is missing, cannot be decoded or
    the artifact cannot be written (the generator catches the exception and
    returns [False]), the job ends [failed] with a non-empty message;
    otherwise it ends [completed]. *)
Theorem C6_failures_end_in_failed_job
    (mesh_id sketch_path model_type sketch_style output_path : string) (j : Job) (w : World) :
  conversion_status w !! mesh_id = Some j →
  ∃ w',
    process_conversion mesh_id sketch_path model_type sketch_style output_path w = (Ok (), w') ∧
    ((pipeline_ready w sketch_path output_path ∧
      conversion_status w' !! mesh_id = Some (mkJob "completed" 100 (error j))) ∨
     (¬ pipeline_ready w sketch_path output_path ∧
      ∃ msg, msg ≠ "" ∧
        conversion_status w' !! mesh_id = Some (mkJob "failed" 30 (Some msg)))).
Proof.
  intros Hj.
  destruct (process_conversion_present mesh_id sketch_path model_type sketch_style output_path
              j w Hj) as (success & files' & Hiff & Hrun).
  eexists. split; [exact Hrun |]. simpl. rewrite lookup_insert_eq.
  destruct success; simpl.
  - left. split; [apply Hiff; reflexivity | reflexivity].
  - right. split.
    + intros Hready. apply Hiff in Hready. discriminate.
    + exists "Conversion process failed". split; [discriminate | reflexivity].
Qed.

(** C7: the download is served exactly when the id is known, the job is
    completed and the artifact is on disk; the response names the file
    [{mesh_id}.glb] with media type [model/gltf-binary].  Otherwise: 404 for
    an unknown id, 400 naming the current status for a job that is not
    completed, 404 for a completed job whose file is gone. *)
Theorem C7_download_gates (mesh_id : string) (w : World) :
  ((∃ resp, fst (download_mesh mesh_id w) = Ok resp) ↔
   (∃ job, conversion_status w !! mesh_id = Some job ∧ status job = "completed" ∧
           is_Some (files w !! get_output_path mesh_id "glb"))) ∧
  (∀ resp, fst (download_mesh mesh_id w) = Ok resp →
     fr_path resp = get_output_path mesh_id "glb" ∧
     fr_filename resp = mesh_id +:+ ".glb" ∧
     fr_media_type resp = "model/gltf-binary") ∧
  (conversion_status w !! mesh_id = None →
     fst (download_mesh mesh_id w) = Raise (HTTPException 404 "Mesh ID not found")) ∧
  (∀ job, conversion_status w !! mesh_id = Some job → status job ≠ "completed" →
     fst (download_mesh mesh_id w) =
       Raise (HTTPException 400 ("Conversion not completed. Status: " +:+ status job))) ∧
  (∀ job, conversion_status w !! mesh_id = Some job → status job = "completed" →
     files w !! get_output_path mesh_id "glb" = None →
     fst (download_mesh mesh_id w) = Raise (HTTPException 404 "Mesh file not found")) ∧
  snd (download_mesh mesh_id w) = w.
Proof.
  unfold download_mesh, file_exists, path_exists.
  destruct (conversion_status w !! mesh_id) as [job|] eqn:Hjob.
  - destruct (decide (status job = "completed")) as [Hdone | Hnot].
    + rewrite bool_decide_eq_true_2 by exact Hdone. simpl.
      destruct (files w !! get_output_path mesh_id "glb") as [bytes|] eqn:Hfile.
      * rewrite bool_decide_eq_true_2 by eauto. simpl.
        split_and!; try (intros; simplify_eq; done).
        split; [intros _; exists job; eauto | eauto].
      * rewrite bool_decide_eq_false_2 by (intros [? ?]; discriminate). simpl.
        split_and!; try (intros; simplify_eq; done).
        split; [intros (resp & ?); discriminate |].
        intros (job' & _ & _ & [? ?]). discriminate.
    + rewrite bool_decide_eq_false_2 by exact Hnot. simpl.
      split_and!; try (intros; simplify_eq; done).
      split; [intros (resp & ?); discriminate |].
      intros (job' & ? & Hdone & _). simplify_eq.
  - simpl. split_and!; try (intros; simplify_eq; done).
    split; [intros (resp & ?); discriminate |].
    intros (job' & ? & _). discriminate.
Qed.

(** C2 (as amended): a submission whose declared content type is missing or
    does not start with [image/] is rejected at once with the 400 validation
    error and the world, hence the registry, is left as it was. *)
Theorem C2_rejected_by_declared_content_type
    (sketch : UploadFile) (model_type sketch_style uuid4 : string) (w : World) :
  models_ready w = true →
  model_type ∈ ["cars"; "chairs"] →
  sketch_style ∈ ["suggestive"; "fd"; "handdrawn"] →
  (∀ ct, content_type sketch = Some ct → startswith ct "image/" = false) →
  convert_sketch sketch model_type sketch_style uuid4 w =
    (Raise (HTTPException 400 "Invalid file type. Must be an image."), w).
Proof.
  intros Hready Hmt Hss Hct.
  unfold convert_sketch, save_upload. unfold_monad. simpl.
  rewrite Hready. simpl.
  rewrite !bool_decide_eq_true_2 by assumption. simpl.
  destruct (content_type sketch) as [ct|]; [rewrite (Hct ct eq_refl) |]; reflexivity.
Qed.

(** C8 (as amended): an accepted submission stores the fresh record
    [processing / 0 / None] under the drawn identifier by plain assignment,
    whatever the registry held under that identifier before. *)
Theorem C8_creation_is_assignment
    (sketch : UploadFile) (model_type sketch_style uuid4 : string) (w w' : World)
    (resp : ConvertResponse) :
  convert_sketch sketch model_type sketch_style uuid4 w = (Ok resp, w') →
  cr_mesh_id resp = uuid4 ∧
  conversion_status w' = <[uuid4 := mkJob "processing" 0 None]> (conversion_status w) ∧
  conversion_status w' !! uuid4 = Some (mkJob "processing" 0 None) ∧
  (∀ other, other ≠ uuid4 → conversion_status w' !! other = conversion_status w !! other).
Proof.
  intros Hrun.
  destruct (convert_sketch_cases sketch model_type sketch_style uuid4 w)
    as [(_ & Hok) | (_ & code & detail & Hraise)]; [| congruence].
  rewrite Hok in Hrun. injection Hrun as Hresp Hw'. subst resp w'. simpl.
  repeat split.
  - apply lookup_insert_eq.
  - intros other Hne. apply lookup_insert_ne. congruence.
Qed.

(** What becomes of an admitted upload whose bytes do not decode: the job is
    created, and its coroutine ends it [failed]. *)
Lemma undecodable_upload_fails_later
    (sketch : UploadFile) (model_type sketch_style uuid4 : string) (w : World) :
  admitted w sketch model_type sketch_style uuid4 →
  decode_grayscale (content sketch) = None →
  ∃ w',
    process_conversion uuid4 (upload_path sketch uuid4) model_type sketch_style
      (get_output_path uuid4 "glb") (submitted w sketch model_type sketch_style uuid4) =
      (Ok (), w') ∧
    conversion_status w' !! uuid4 = Some (job_failed "Conversion process failed").
Proof.
  intros _ Hdec.
  destruct (process_conversion_present uuid4 (upload_path sketch uuid4) model_type sketch_style
              (get_output_path uuid4 "glb") job_created
              (submitted w sketch model_type sketch_style uuid4))
    as (success & files' & Hiff & Hrun); [apply lookup_insert_eq |].
  eexists. split; [exact Hrun |]. simpl. rewrite lookup_insert_eq.
  destruct success; [| reflexivity].
  destruct Hiff as [Hready _]. destruct (Hready eq_refl) as (bytes & img & Hfile & Hdec' & _).
  simpl in Hfile. rewrite lookup_insert_eq in Hfile. congruence.
Qed.

End OrchestratorResults.

Section EndpointRuns.
Import Demo.

Lemma C6_failures_end_in_failed_job_witness :
  ∃ w',
    process_conversion "job-1" "/srv/ml-service/data/uploads/job-1.png" "cars" "suggestive"
      "/srv/ml-service/data/outputs/job-1.glb" world1 = (Ok (), w') ∧
    ((pipeline_ready world1 "/srv/ml-service/data/uploads/job-1.png"
        "/srv/ml-service/data/outputs/job-1.glb" ∧
      conversion_status w' !! "job-1" = Some (mkJob "completed" 100 None)) ∨
     (¬ pipeline_ready world1 "/srv/ml-service/data/uploads/job-1.png"
          "/srv/ml-service/data/outputs/job-1.glb" ∧
      ∃ msg, msg ≠ "" ∧ conversion_status w' !! "job-1" = Some (mkJob "failed" 30 (Some msg)))).
Proof.
  apply (C6_failures_end_in_failed_job "job-1" "/srv/ml-service/data/uploads/job-1.png" "cars"
           "suggestive" "/srv/ml-service/data/outputs/job-1.glb" (mkJob "processing" 0 None)
           world1).
  reflexivity.
Defined.

Lemma C2_rejected_by_declared_content_type_witness :
  convert_sketch (mkUpload (Some "application/octet-stream") garbage) "cars" "suggestive"
    "job-2" world0 =
  (Raise (HTTPException 400 "Invalid file type. Must be an image."), world0).
Proof.
  apply (C2_rejected_by_declared_content_type
           (mkUpload (Some "application/octet-stream") garbage) "cars" "suggestive" "job-2"
           world0).
  - reflexivity.
  - constructor.
  - constructor.
  - intros ct [= <-]. reflexivity.
Defined.

(** C2 as stated fails: bytes that do not decode, declared as [image/png],
    pass the validation boundary; the submission is answered with a job id
    and the registry holds a new entry for it. *)
Lemma C2_undecodable_upload_accepted :
  decode_grayscale garbage = None ∧
  fst (convert_sketch (mkUpload (Some "image/png") garbage) "cars" "suggestive" "job-2" world0) =
    Ok (mkConvertResponse "job-2" "processing" None None) ∧
  conversion_status world0 !! "job-2" = None ∧
  conversion_status
    (snd (convert_sketch (mkUpload (Some "image/png") garbage) "cars" "suggestive" "job-2"
            world0)) !! "job-2" = Some (mkJob "processing" 0 None).
Proof. repeat split; vm_compute; reflexivity. Qed.

Lemma C8_creation_is_assignment_witness :
  cr_mesh_id (mkConvertResponse "job-2" "processing" None None) = "job-2" ∧
  conversion_status (submitted world0 (mkUpload (Some "image/png") dot_bytes) "cars"
                       "suggestive" "job-2") =
    <[ "job-2" := mkJob "processing" 0 None ]> (conversion_status world0) ∧
  conversion_status (submitted world0 (mkUpload (Some "image/png") dot_bytes) "cars"
                       "suggestive" "job-2") !! "job-2" = Some (mkJob "processing" 0 None) ∧
  (∀ other, other ≠ "job-2" →
     conversion_status (submitted world0 (mkUpload (Some "image/png") dot_bytes) "cars"
                          "suggestive" "job-2") !! other = conversion_status world0 !! other).
Proof.
  apply (C8_creation_is_assignment (mkUpload (Some "image/png") dot_bytes) "cars" "suggestive"
           "job-2" world0).
  vm_compute. reflexivity.
Defined.

(** C8 as stated fails: the identifier [job-1] is already in the registry
    with a completed job; a submission that draws it again is accepted
    without any error and the existing record is replaced. *)
Lemma C8_duplicate_id_overwrites :
  conversion_status world2 !! "job-1" = Some (mkJob "completed" 100 None) ∧
  fst (convert_sketch (mkUpload (Some "image/png") dot_bytes) "cars" "suggestive" "job-1"
         world2) = Ok (mkConvertResponse "job-1" "processing" None None) ∧
  conversion_status
    (snd (convert_sketch (mkUpload (Some "image/png") dot_bytes) "cars" "suggestive" "job-1"
            world2)) !! "job-1" = Some (mkJob "processing" 0 None).
Proof. repeat split; vm_compute; reflexivity. Qed.

End EndpointRuns.

(** ** The job state machine *)

(** The records written under [mesh_id] in a write log. *)
Definition history_of (mesh_id : string) (h : list (string * Job)) : list Job :=
  snd <$> filter (λ e, fst e = mesh_id) h.

(** Where a job identifier stands: what the registry holds for it, what has
    been written under it so far, and which coroutines carry it. *)
Inductive phase (mesh_id : string) (w : World) : Prop :=
| phase_unknown :
    conversion_status w !! mesh_id = None →
    history_of mesh_id (history w) = [] →
    (∀ t, t ∈ tasks w → t_mesh_id t ≠ mesh_id) →
    phase mesh_id w
| phase_created :
    conversion_status w !! mesh_id = Some job_created →
    history_of mesh_id (history w) = [job_created] →
    (∀ t, t ∈ tasks w → t_mesh_id t = mesh_id → t_pc t = Scheduled) →
    phase mesh_id w
| phase_synthesizing :
    conversion_status w !! mesh_id = Some job_synthesizing →
    history_of mesh_id (history w) = [job_created; job_accepted; job_synthesizing] →
    (∀ t, t ∈ tasks w → t_mesh_id t = mesh_id → t_pc t = Awaiting) →
    phase mesh_id w
| phase_completed :
    conversion_status w !! mesh_id = Some job_completed →
    history_of mesh_id (history w) =
      [job_created; job_accepted; job_synthesizing; mkJob "completed" 30 None; job_completed] →
    (∀ t, t ∈ tasks w → t_mesh_id t ≠ mesh_id) →
    phase mesh_id w
| phase_failed :
    conversion_status w !! mesh_id = Some (job_failed "Conversion process failed") →
    history_of mesh_id (history w) =
      [job_created; job_accepted; job_synthesizing; mkJob "failed" 30 None;
       job_failed "Conversion process failed"] →
    (∀ t, t ∈ tasks w → t_mesh_id t ≠ mesh_id) →
    phase mesh_id w.

(** The invariant of the service: no two live coroutines carry the same
    identifier, and every identifier is in one of the five phases. *)
Record invariant (w : World) : Prop := {
  inv_nodup : NoDup (t_mesh_id <$> tasks w);
  inv_phase : ∀ mesh_id, phase mesh_id w;
}.

Section StateMachine.
Context `{!Platform}.

Lemma job_history_eq (mesh_id : string) (w : World) :
  job_history mesh_id w = history_of mesh_id (history w).
Proof. reflexivity. Qed.

Lemma history_of_app (mesh_id : string) (h1 h2 : list (string * Job)) :
  history_of mesh_id (h1 ++ h2) = history_of mesh_id h1 ++ history_of mesh_id h2.
Proof. unfold history_of. rewrite filter_app, fmap_app. reflexivity. Qed.

Lemma history_of_same (mesh_id : string) (js : list Job) :
  history_of mesh_id ((λ r, (mesh_id, r)) <$> js) = js.
Proof.
  unfold history_of. induction js as [|j js IH]; [reflexivity |].
  rewrite fmap_cons, filter_cons_True by reflexivity. simpl. f_equal. exact IH.
Qed.

Lemma history_of_other (mesh_id other : string) (js : list Job) :
  other ≠ mesh_id → history_of mesh_id ((λ r, (other, r)) <$> js) = [].
Proof.
  intros Hne. unfold history_of. induction js as [|j js IH]; [reflexivity |].
  rewrite fmap_cons, filter_cons_False by (simpl; exact Hne). exact IH.
Qed.

(** A phase only looks at the entry, the writes and the coroutines of its
    own identifier. *)
Lemma phase_frame (mesh_id : string) (w w' : World) :
  conversion_status w' !! mesh_id = conversion_status w !! mesh_id →
  history_of mesh_id (history w') = history_of mesh_id (history w) →
  (∀ t, t ∈ tasks w' → t_mesh_id t = mesh_id → t ∈ tasks w) →
  phase mesh_id w → phase mesh_id w'.
Proof.
  intros Hreg Hhist Htasks Hphase.
  destruct Hphase as [Hr Hh Ht | Hr Hh Ht | Hr Hh Ht | Hr Hh Ht | Hr Hh Ht];
    rewrite <- Hreg in Hr; rewrite <- Hhist in Hh.
  - apply phase_unknown; auto. intros t Hin Hid. apply (Ht t); auto.
  - apply phase_created; auto.
  - apply phase_synthesizing; auto.
  - apply phase_completed; auto. intros t Hin Hid. apply (Ht t); auto.
  - apply phase_failed; auto. intros t Hin Hid. apply (Ht t); auto.
Qed.

Lemma invariant_start (ready : bool) (files0 : gmap string (list Byte.byte))
    (writable0 : string → bool) :
  invariant (mkWorld ∅ ready files0 writable0 [] []).
Proof.
  split; simpl; [constructor |].
  intros mesh_id. apply phase_unknown; simpl.
  - apply lookup_empty.
  - reflexivity.
  - intros t Hin. inversion Hin.
Qed.

(** A live coroutine's identifier is in the created or the synthesizing
    phase, according to its program point. *)
Lemma live_task_phase (t : Task) (w : World) :
  invariant w → t ∈ tasks w →
  (t_pc t = Scheduled ∧ conversion_status w !! t_mesh_id t = Some job_created ∧
   history_of (t_mesh_id t) (history w) = [job_created]) ∨
  (t_pc t = Awaiting ∧ conversion_status w !! t_mesh_id t = Some job_synthesizing ∧
   history_of (t_mesh_id t) (history w) = [job_created; job_accepted; job_synthesizing]).
Proof.
  intros [_ Hphase] Hin.
  destruct (Hphase (t_mesh_id t)) as [Hr Hh Ht | Hr Hh Ht | Hr Hh Ht | Hr Hh Ht | Hr Hh Ht].
  - destruct (Ht t Hin eq_refl).
  - left. auto.
  - right. auto.
  - destruct (Ht t Hin eq_refl).
  - destruct (Ht t Hin eq_refl).
Qed.

(** Taking the [i]-th coroutine out of the queue leaves none with its
    identifier. *)
Lemma delete_task_ids (i : nat) (t : Task) (ts : list Task) :
  NoDup (t_mesh_id <$> ts) → ts !! i = Some t →
  NoDup (t_mesh_id <$> delete i ts) ∧
  (∀ t', t' ∈ delete i ts → t_mesh_id t' ≠ t_mesh_id t) ∧
  (∀ t', t' ∈ delete i ts → t' ∈ ts).
Proof.
  intros Hnd Hi.
  rewrite <- (take_drop_middle ts i t Hi) in Hnd.
  rewrite fmap_app, fmap_cons in Hnd.
  apply NoDup_app in Hnd as (Hnd1 & Hdisj & Hnd2).
  apply NoDup_cons in Hnd2 as (Hnotin & Hnd2).
  rewrite delete_take_drop, fmap_app.
  split; [| split].
  - apply NoDup_app. split; [exact Hnd1 |]. split; [| exact Hnd2].
    intros x Hx Hx'. apply (Hdisj x Hx). right. exact Hx'.
  - intros t' [Hin | Hin]%elem_of_app Heq.
    + apply (Hdisj (t_mesh_id t')); [apply list_elem_of_fmap_2, Hin |].
      rewrite Heq. left.
    + apply Hnotin. rewrite <- Heq. apply list_elem_of_fmap_2, Hin.
  - intros t' Hin. rewrite <- (take_drop_middle ts i t Hi).
    apply elem_of_app in Hin as [Hin | Hin]; apply elem_of_app; [left | right; right]; exact Hin.
Qed.

End StateMachine.

Section Preservation.
Context `{!Platform}.

Lemma invariant_submitted (sketch : UploadFile) (model_type sketch_style uuid4 : string)
    (w : World) :
  invariant w → conversion_status w !! uuid4 = None →
  invariant (submitted w sketch model_type sketch_style uuid4).
Proof.
  intros [Hnd Hphase] Hfresh.
  assert (Hnone : ∀ t, t ∈ tasks w → t_mesh_id t ≠ uuid4).
  { destruct (Hphase uuid4) as [Hr Hh Ht | Hr | Hr | Hr | Hr]; [exact Ht | congruence ..]. }
  split; simpl.
  - rewrite fmap_app. apply NoDup_app. split; [exact Hnd |]. split.
    + intros x (t & -> & Hin)%list_elem_of_fmap Hx. simpl in Hx.
      apply list_elem_of_singleton in Hx. exact (Hnone t Hin Hx).
    + simpl. apply NoDup_singleton.
  - intros mesh_id. destruct (decide (mesh_id = uuid4)) as [-> | Hne].
    + apply phase_created; simpl.
      * apply lookup_insert_eq.
      * rewrite history_of_app.
        destruct (Hphase uuid4) as [Hr Hh Ht | Hr | Hr | Hr | Hr]; [| congruence ..].
        rewrite Hh. simpl. unfold history_of. rewrite filter_cons_True by reflexivity.
        reflexivity.
      * intros t [Hin | Hin]%elem_of_app Hid; [destruct (Hnone t Hin Hid) |].
        apply list_elem_of_singleton in Hin. subst t. reflexivity.
    + apply (phase_frame mesh_id w); simpl; [| | | apply Hphase].
      * apply lookup_insert_ne. congruence.
      * rewrite history_of_app. unfold history_of at 2.
        rewrite filter_cons_False by (simpl; congruence). simpl. apply app_nil_r.
      * intros t [Hin | Hin]%elem_of_app Hid; [exact Hin |].
        apply list_elem_of_singleton in Hin. subst t. simpl in Hid. congruence.
Qed.

(** A turn of the event loop on a world that satisfies the invariant: the
    coroutine does not raise, the invariant holds afterwards and the write
    log has only grown. *)
Lemma run_task_invariant (i : nat) (w : World) :
  invariant w →
  ∃ w' l, run_task i w = (Ok (), w') ∧ invariant w' ∧ history w' = history w ++ l.
Proof.
  intros Hinv. pose proof Hinv as [Hnd Hphase]. unfold run_task.
  destruct (tasks w !! i) as [t|] eqn:Hi.
  2: { exists w, []. rewrite app_nil_r. auto. }
  assert (Hin : t ∈ tasks w) by (apply list_elem_of_lookup; eauto).
  destruct (delete_task_ids i t (tasks w) Hnd Hi) as (Hnd' & Hgone & Hsub).
  destruct (live_task_phase t w Hinv Hin) as [(Hpc & Hreg & Hhist) | (Hpc & Hreg & Hhist)].
  - erewrite (resume_scheduled t job_created) by (first [exact Hpc | exact Hreg]).
    eexists _, _. split; [reflexivity |]. split; [| simpl; reflexivity].
    split; simpl.
    + rewrite fmap_app. apply NoDup_app. split; [exact Hnd' |]. split.
      * intros x (t' & -> & Hin')%list_elem_of_fmap Hx. simpl in Hx.
        apply list_elem_of_singleton in Hx. exact (Hgone t' Hin' Hx).
      * simpl. apply NoDup_singleton.
    + intros mesh_id. destruct (decide (mesh_id = t_mesh_id t)) as [-> | Hne].
      * apply phase_synthesizing; simpl.
        -- apply lookup_insert_eq.
        -- rewrite history_of_app, Hhist.
           change [(t_mesh_id t, mkJob "processing" 10 None);
                   (t_mesh_id t, mkJob "processing" 30 None)]
             with ((λ r, (t_mesh_id t, r)) <$> [job_accepted; job_synthesizing]).
           rewrite history_of_same. reflexivity.
        -- intros t' [Hin' | Hin']%elem_of_app Hid; [destruct (Hgone t' Hin' Hid) |].
           apply list_elem_of_singleton in Hin'. subst t'. reflexivity.
      * apply (phase_frame mesh_id w); simpl; [| | | apply Hphase].
        -- apply lookup_insert_ne. congruence.
        -- rewrite history_of_app.
           change [(t_mesh_id t, mkJob "processing" 10 None);
                   (t_mesh_id t, mkJob "processing" 30 None)]
             with ((λ r, (t_mesh_id t, r)) <$> [job_accepted; job_synthesizing]).
           rewrite history_of_other by congruence. apply app_nil_r.
        -- intros t' [Hin' | Hin']%elem_of_app Hid; [apply Hsub, Hin' |].
           apply list_elem_of_singleton in Hin'. subst t'. simpl in Hid. congruence.
  - destruct (resume_awaiting t job_synthesizing (with_tasks (delete i (tasks w)) w) Hpc Hreg)
      as (success & files' & _ & Hrun).
    rewrite Hrun. eexists _, _. split; [reflexivity |]. split; [| simpl; reflexivity].
    split; simpl; [exact Hnd' |].
    intros mesh_id. destruct (decide (mesh_id = t_mesh_id t)) as [-> | Hne].
    + destruct success.
      * apply phase_completed; simpl.
        -- apply lookup_insert_eq.
        -- rewrite history_of_app, Hhist.
           change [(t_mesh_id t, mkJob "completed" 30 None);
                   (t_mesh_id t, mkJob "completed" 100 None)]
             with ((λ r, (t_mesh_id t, r)) <$> [mkJob "completed" 30 None; job_completed]).
           rewrite history_of_same. reflexivity.
        -- exact Hgone.
      * apply phase_failed; simpl.
        -- apply lookup_insert_eq.
        -- rewrite history_of_app, Hhist.
           change [(t_mesh_id t, mkJob "failed" 30 None);
                   (t_mesh_id t, mkJob "failed" 30 (Some "Conversion process failed"))]
             with ((λ r, (t_mesh_id t, r)) <$>
                     [mkJob "failed" 30 None; job_failed "Conversion process failed"]).
           rewrite history_of_same. reflexivity.
        -- exact Hgone.
    + apply (phase_frame mesh_id w); simpl; [| | | apply Hphase].
      * apply lookup_insert_ne. congruence.
      * rewrite history_of_app. destruct success.
        -- change [(t_mesh_id t, mkJob "completed" 30 None);
                   (t_mesh_id t, mkJob "completed" 100 None)]
             with ((λ r, (t_mesh_id t, r)) <$> [mkJob "completed" 30 None; job_completed]).
           rewrite history_of_other by congruence. apply app_nil_r.
        -- change [(t_mesh_id t, mkJob "failed" 30 None);
                   (t_mesh_id t, mkJob "failed" 30 (Some "Conversion process failed"))]
             with ((λ r, (t_mesh_id t, r)) <$>
                     [mkJob "failed" 30 None; job_failed "Conversion process failed"]).
           rewrite history_of_other by congruence. apply app_nil_r.
      * intros t' Hin' _. apply Hsub, Hin'.
Qed.

(** Every event keeps the invariant and only appends to the write log. *)
Lemma handle_invariant (ev : Event) (w : World) :
  invariant w → fresh_uuid ev w →
  invariant (handle ev w) ∧ ∃ l, history (handle ev w) = history w ++ l.
Proof.
  intros Hinv Hfresh. destruct ev as [sketch model_type sketch_style uuid4 | i | f' wr']; simpl.
  - destruct (convert_sketch_cases sketch model_type sketch_style uuid4 w)
      as [(_ & ->) | (_ & code & detail & ->)]; simpl.
    + split; [apply invariant_submitted; assumption | eauto].
    + split; [exact Hinv | exists []; symmetry; apply app_nil_r].
  - destruct (run_task_invariant i w Hinv) as (w' & l & -> & Hinv' & Hl). simpl. eauto.
  - split; [| exists []; symmetry; apply app_nil_r].
    destruct Hinv as [Hnd Hphase]. split; [exact Hnd |].
    intros mesh_id. apply (phase_frame mesh_id w); auto.
Qed.

Lemma reachable_invariant (w : World) : reachable w → invariant w.
Proof.
  induction 1 as [ready files0 writable0 | w ev _ IH Hfresh].
  - apply invariant_start.
  - apply handle_invariant; assumption.
Qed.

Lemma later_reachable (w w' : World) : reachable w → later w w' → reachable w'.
Proof.
  intros Hw. induction 1 as [| w' ev _ IH Hfresh]; [exact Hw |].
  apply reachable_step; assumption.
Qed.

Lemma later_history (w w' : World) :
  reachable w → later w w' → ∃ l, history w' = history w ++ l.
Proof.
  intros Hw. induction 1 as [| w' ev Hlater IH Hfresh].
  - exists []. symmetry. apply app_nil_r.
  - destruct IH as (l & Hl).
    pose proof (reachable_invariant _ (later_reachable _ _ Hw Hlater)) as Hinv.
    destruct (handle_invariant ev w' Hinv Hfresh) as (_ & l' & Hl').
    exists (l ++ l'). rewrite Hl', Hl, app_assoc. reflexivity.
Qed.

End Preservation.

(** ** Lifecycle properties *)

(** The records written under one identifier by a run that succeeds and by
    a run that fails, creation included.  The two writes of the terminal
    transition are made in one turn, with no suspension between them. *)
Definition success_trace : list Job :=
  [job_created; job_accepted; job_synthesizing; mkJob "completed" 30 None; job_completed].
Definition failure_trace : list Job :=
  [job_created; job_accepted; job_synthesizing; mkJob "failed" 30 None;
   job_failed "Conversion process failed"].

Section Lifecycle.
Context `{!Platform}.

Ltac close_trace :=
  first [ left; eexists; simpl; reflexivity | right; eexists; simpl; reflexivity ].

(** C1: the records written under a job identifier follow the order 0, 10,
    30, then completed with 100 or failed; between two observations of the
    same job its progress does not decrease, and once the job is completed
    or failed its record, status and error included, stays as it is. *)
Theorem C1_updates_ordered_terminal_stable (w w' : World) (mesh_id : string) (j : Job) :
  reachable w →
  later w w' →
  conversion_status w !! mesh_id = Some j →
  (job_history mesh_id w' `prefix_of` success_trace ∨
   job_history mesh_id w' `prefix_of` failure_trace) ∧
  job_history mesh_id w `prefix_of` job_history mesh_id w' ∧
  ∃ j',
    conversion_status w' !! mesh_id = Some j' ∧
    last (job_history mesh_id w') = Some j' ∧
    progress j ≤ progress j' ∧
    (terminal j → status j' = status j ∧ error j' = error j ∧ progress j' = progress j).
Proof.
  intros Hw Hlater Hj.
  pose proof (reachable_invariant w Hw) as [_ Hp].
  pose proof (reachable_invariant w' (later_reachable w w' Hw Hlater)) as [_ Hp'].
  destruct (later_history w w' Hw Hlater) as (l & Hl).
  pose proof (history_of_app mesh_id (history w) l) as Happ. rewrite <- Hl in Happ.
  rewrite !job_history_eq. unfold success_trace, failure_trace, terminal.
  destruct (Hp mesh_id) as [Hr Hh _ | Hr Hh _ | Hr Hh _ | Hr Hh _ | Hr Hh _];
    rewrite Hr in Hj; simplify_eq;
    destruct (Hp' mesh_id) as [Hr' Hh' _ | Hr' Hh' _ | Hr' Hh' _ | Hr' Hh' _ | Hr' Hh' _];
    rewrite Hh, Hh' in Happ; simplify_eq/=;
    rewrite Hh, Hh';
    (split; [close_trace |]);
    (split; [eexists; simpl; reflexivity |]);
    (eexists; split; [exact Hr' |]; split; [reflexivity |]);
    (split; [simpl; lia |]);
    intros [Hs | Hs]; simpl in Hs; try discriminate Hs; auto.
Qed.

(** C9: in every world the service can reach, a job has an error exactly
    when its status is failed; completed jobs have none, failed jobs have a
    message.  (The failing transition writes the status first and the error
    second; both writes are in one turn of the event loop, and worlds are
    taken between turns.) *)
Theorem C9_error_iff_failed (w : World) (mesh_id : string) (j : Job) :
  reachable w →
  conversion_status w !! mesh_id = Some j →
  (error j ≠ None ↔ status j = "failed") ∧
  (status j = "completed" → error j = None) ∧
  (status j = "failed" → ∃ msg, error j = Some msg).
Proof.
  intros Hw Hj. pose proof (reachable_invariant w Hw) as [_ Hp].
  destruct (Hp mesh_id) as [Hr _ _ | Hr _ _ | Hr _ _ | Hr _ _ | Hr _ _];
    rewrite Hr in Hj; simplify_eq; simpl;
    (split; [split; [intros Hne; try congruence; reflexivity | intros Hs; congruence] |]);
    (split; [intros Hs; congruence |]);
    intros Hs; try discriminate Hs; eauto.
Qed.

(** C10: the failing transitions write the status and the error only, the
    progress keeps its value; a failed job therefore stays at the progress
    it had while processing (30, the value written before the service call)
    and the status endpoint reports that value next to the error. *)
Theorem C10_failed_job_keeps_progress (w : World) (mesh_id : string) (j : Job) :
  reachable w →
  conversion_status w !! mesh_id = Some j →
  status j = "failed" →
  (progress j = 10 ∨ progress j = 30) ∧
  job_history mesh_id w = failure_trace ∧
  (∃ msg, error j = Some msg ∧
     get_conversion_status mesh_id w =
       (Ok (mkStatusResponse "failed" (Some (progress j)) (Some msg)), w)) ∧
  (∀ w0 j0 e, conversion_status w0 !! mesh_id = Some j0 →
     conversion_status (snd (record_outcome mesh_id false w0)) !! mesh_id =
       Some (mkJob "failed" (progress j0) (Some "Conversion process failed")) ∧
     conversion_status (snd (on_exception mesh_id e w0)) !! mesh_id =
       Some (mkJob "failed" (progress j0) (Some (str e)))).
Proof.
  intros Hw Hj Hfailed. pose proof (reachable_invariant w Hw) as [_ Hp].
  split_and!.
  - destruct (Hp mesh_id) as [Hr _ _ | Hr _ _ | Hr _ _ | Hr _ _ | Hr _ _];
      rewrite Hr in Hj; simplify_eq; simpl in *; try discriminate Hfailed. right. reflexivity.
  - destruct (Hp mesh_id) as [Hr _ _ | Hr _ _ | Hr _ _ | Hr _ _ | Hr Hh _];
      rewrite Hr in Hj; simplify_eq; simpl in *; try discriminate Hfailed. exact Hh.
  - unfold get_conversion_status. rewrite Hj.
    destruct (Hp mesh_id) as [Hr _ _ | Hr _ _ | Hr _ _ | Hr _ _ | Hr _ _];
      rewrite Hr in Hj; simplify_eq; simpl in *; try discriminate Hfailed. eauto.
  - intros w0 j0 e Hj0. split.
    + rewrite (record_outcome_present mesh_id false j0 w0 Hj0). simpl. apply lookup_insert_eq.
    + rewrite (on_exception_present mesh_id e j0 w0 Hj0). simpl. apply lookup_insert_eq.
Qed.

(** In a reachable world no turn of the event loop lets an exception out of
    a coroutine. *)
Lemma run_task_never_raises (i : nat) (w : World) :
  reachable w → fst (run_task i w) = Ok ().
Proof.
  intros Hw.
  destruct (run_task_invariant i w (reachable_invariant w Hw)) as (w' & l & -> & _).
  reflexivity.
Qed.

End Lifecycle.

Section LifecycleRuns.
Import Demo.

Lemma reachable_after_submit : reachable after_submit.
Proof.
  apply (reachable_step world0 submit_dot); [apply reachable_start | reflexivity].
Qed.

Lemma later_after_run : later after_submit after_run.
Proof.
  apply (later_step after_submit after_first_turn (RunTask 0)); [| exact I].
  apply (later_step after_submit after_submit (RunTask 0)); [| exact I].
  apply later_refl.
Qed.

Lemma reachable_after_garbage_run : reachable after_garbage_run.
Proof.
  apply (reachable_step _ (RunTask 0)); [| exact I].
  apply (reachable_step _ (RunTask 0)); [| exact I].
  apply (reachable_step world0 submit_garbage); [apply reachable_start | reflexivity].
Qed.

Lemma C1_updates_ordered_terminal_stable_witness :
  (job_history "job-1" after_run `prefix_of` success_trace ∨
   job_history "job-1" after_run `prefix_of` failure_trace) ∧
  job_history "job-1" after_submit `prefix_of` job_history "job-1" after_run ∧
  ∃ j',
    conversion_status after_run !! "job-1" = Some j' ∧
    last (job_history "job-1" after_run) = Some j' ∧
    progress job_created ≤ progress j' ∧
    (terminal job_created →
     status j' = status job_created ∧ error j' = error job_created ∧
     progress j' = progress job_created).
Proof.
  apply (C1_updates_ordered_terminal_stable after_submit after_run "job-1" job_created).
  - exact reachable_after_submit.
  - exact later_after_run.
  - vm_compute. reflexivity.
Defined.

Lemma C9_error_iff_failed_witness :
  (error (job_failed "Conversion process failed") ≠ None ↔
   status (job_failed "Conversion process failed") = "failed") ∧
  (status (job_failed "Conversion process failed") = "completed" →
   error (job_failed "Conversion process failed") = None) ∧
  (status (job_failed "Conversion process failed") = "failed" →
   ∃ msg, error (job_failed "Conversion process failed") = Some msg).
Proof.
  apply (C9_error_iff_failed after_garbage_run "job-2" (job_failed "Conversion process failed")).
  - exact reachable_after_garbage_run.
  - vm_compute. reflexivity.
Defined.

Lemma C10_failed_job_keeps_progress_witness :
  (progress (job_failed "Conversion process failed") = 10 ∨
   progress (job_failed "Conversion process failed") = 30) ∧
  job_history "job-2" after_garbage_run = failure_trace ∧
  (∃ msg, error (job_failed "Conversion process failed") = Some msg ∧
     get_conversion_status "job-2" after_garbage_run =
       (Ok (mkStatusResponse "failed"
              (Some (progress (job_failed "Conversion process failed"))) (Some msg)),
        after_garbage_run)) ∧
  (∀ w0 j0 e, conversion_status w0 !! "job-2" = Some j0 →
     conversion_status (snd (record_outcome "job-2" false w0)) !! "job-2" =
       Some (mkJob "failed" (progress j0) (Some "Conversion process failed")) ∧
     conversion_status (snd (on_exception "job-2" e w0)) !! "job-2" =
       Some (mkJob "failed" (progress j0) (Some (str e)))).
Proof.
  apply (C10_failed_job_keeps_progress after_garbage_run "job-2"
           (job_failed "Conversion process failed")).
  - exact reachable_after_garbage_run.
  - vm_compute. reflexivity.
  - reflexivity.
Defined.

End LifecycleRuns.

(** * Further properties of the service

    The rest of [file_handler.py], [main.py], [sketch2mesh_service.py] and
    [mesh_converter.py], and what the code already embedded above does
    beyond the properties proved so far. *)

(** ** Submission: the order and the effect of the checks *)

Section SubmissionChecks.
Context `{!Platform}.

(** The message of the [OSError] raised by a failed [open(p, 'wb')]. *)
Definition no_such_file (p : string) : string :=
  "[Errno 2] No such file or directory: '" +:+ p +:+ "'".

(** The checks of [save_upload] in the order of the code, as a decision
    list: the exception of the first check that fails. *)
Definition save_upload_rejection (w : World) (file : UploadFile) (uuid4 : string) : option Exn :=
  if negb (match content_type file with
           | Some ct => startswith ct "image/"
           | None => false
           end)
  then Some (HTTPException 400 "Invalid file type. Must be an image.")
  else if bool_decide (inject_Z MAX_UPLOAD_SIZE_MB <
                       inject_Z (Z.of_nat (length (content file))) / inject_Z (1024 * 1024))%Q
  then Some (HTTPException 413
               ("File too large. Maximum size is " +:+ pretty MAX_UPLOAD_SIZE_MB +:+ "MB"))
  else if negb (writable w (upload_path file uuid4))
  then Some (HTTPException 500
               ("Failed to save file: " +:+ no_such_file (upload_path file uuid4)))
  else None.

(** The same for [convert_sketch], whose own three checks come first. *)
Definition first_rejection (w : World) (sketch : UploadFile)
    (model_type sketch_style uuid4 : string) : option Exn :=
  if negb (models_ready w)
  then Some (HTTPException 503 "Service not ready. Models are still initializing.")
  else if negb (bool_decide (model_type ∈ ["cars"; "chairs"]))
  then Some (HTTPException 400 "model_type must be 'cars' or 'chairs'")
  else if negb (bool_decide (sketch_style ∈ ["suggestive"; "fd"; "handdrawn"]))
  then Some (HTTPException 400 "sketch_style must be 'suggestive', 'fd', or 'handdrawn'")
  else save_upload_rejection w sketch uuid4.

Lemma upload_path_unfold (file : UploadFile) (uuid4 ct : string) :
  content_type file = Some ct →
  path_join UPLOADS_DIR
    (uuid4 +:+ "." +:+
     (if contains "jpeg" ct || contains "jpg" ct then "jpg"
      else if contains "png" ct then "png" else "png")) =
  upload_path file uuid4.
Proof. intros Hct. unfold upload_path, upload_extension. rewrite Hct. reflexivity. Qed.

Lemma save_upload_by_checks (file : UploadFile) (uuid4 : string) (w : World) :
  save_upload file uuid4 w =
  match save_upload_rejection w file uuid4 with
  | Some e => (Raise e, w)
  | None =>
      (Ok (uuid4, upload_path file uuid4),
       with_files (<[upload_path file uuid4 := content file]> (files w)) w)
  end.
Proof.
  unfold save_upload, save_upload_rejection, write_bytes, no_such_file. unfold_monad. simpl.
  destruct (content_type file) as [ct|] eqn:Hct; simpl; [| reflexivity].
  destruct (startswith ct "image/"); simpl; [| reflexivity].
  destruct (bool_decide
              (inject_Z MAX_UPLOAD_SIZE_MB <
               inject_Z (Z.of_nat (length (content file))) / inject_Z (1024 * 1024))%Q);
    simpl; [reflexivity |].
  rewrite !(upload_path_unfold file uuid4 ct Hct).
  destruct (writable w (upload_path file uuid4)); reflexivity.
Qed.

Lemma convert_sketch_by_checks (sketch : UploadFile) (model_type sketch_style uuid4 : string)
    (w : World) :
  convert_sketch sketch model_type sketch_style uuid4 w =
  match first_rejection w sketch model_type sketch_style uuid4 with
  | Some e => (Raise e, w)
  | None =>
      (Ok (mkConvertResponse uuid4 "processing" None None),
       submitted w sketch model_type sketch_style uuid4)
  end.
Proof.
  unfold convert_sketch, first_rejection. unfold_monad. simpl.
  destruct (models_ready w); simpl; [| reflexivity].
  destruct (bool_decide (model_type ∈ ["cars"; "chairs"])); simpl; [| reflexivity].
  destruct (bool_decide (sketch_style ∈ ["suggestive"; "fd"; "handdrawn"])); simpl;
    [| reflexivity].
  rewrite save_upload_by_checks.
  unfold save_upload_rejection.
  destruct (negb _); [reflexivity |].
  destruct (bool_decide _); [reflexivity |].
  destruct (negb _); reflexivity.
Qed.

End SubmissionChecks.

Section SubmissionProperties.
Context `{!Platform}.

Lemma size_check_bytes (limit_mb : Z) (n : nat) :
  (inject_Z limit_mb < inject_Z (Z.of_nat n) / inject_Z (1024 * 1024))%Q ↔
  limit_mb * 1048576 < Z.of_nat n.
Proof. unfold Qlt, Qdiv, Qmult, Qinv, inject_Z. simpl. lia. Qed.


(** X2: a submission is accepted exactly when the service is ready, the
    category and the style are known, the declared content type starts with
    [image/], the upload is not over the size limit and the upload file can
    be written.  Then the answer carries the drawn identifier with status
    [processing], and the state afterwards is the one before plus the stored
    upload, the fresh registry entry and one queued coroutine. *)
Theorem accepted_submission_effect
    (sketch : UploadFile) (model_type sketch_style uuid4 : string) (w : World) :
  (admitted w sketch model_type sketch_style uuid4 ↔
   ∃ resp w', convert_sketch sketch model_type sketch_style uuid4 w = (Ok resp, w')) ∧
  (∀ resp w', convert_sketch sketch model_type sketch_style uuid4 w = (Ok resp, w') →
     resp = mkConvertResponse uuid4 "processing" None None ∧
     w' = submitted w sketch model_type sketch_style uuid4 ∧
     files w' !! upload_path sketch uuid4 = Some (content sketch) ∧
     conversion_status w' !! uuid4 = Some (mkJob "processing" 0 None) ∧
     tasks w' = tasks w ++ [mkTask uuid4 (upload_path sketch uuid4) model_type sketch_style
                              (get_output_path uuid4 "glb") Scheduled]).
Proof.
  destruct (convert_sketch_cases sketch model_type sketch_style uuid4 w)
    as [(Hadm & Hok) | (Hnot & code & detail & Hraise)]; rewrite ?Hok, ?Hraise.
  - split; [split; eauto |].
    intros resp w' [= <- <-]. simpl. rewrite !lookup_insert_eq. auto.
  - split; [| intros resp w' [=]].
    split; [intros Hadm; destruct (Hnot Hadm) | intros (resp & w' & [=])].
Qed.


(** X4: the size limit of [save_upload] is inclusive.  An image upload of at
    most [MAX_UPLOAD_SIZE_MB] times 1048576 bytes is stored under
    [UPLOADS_DIR] with exactly the bytes received; one byte more is refused
    with 413 and nothing is stored. *)
Theorem upload_size_limit_inclusive (file : UploadFile) (uuid4 ct : string) (w : World) :
  content_type file = Some ct →
  startswith ct "image/" = true →
  writable w (upload_path file uuid4) = true →
  (Z.of_nat (length (content file)) ≤ MAX_UPLOAD_SIZE_MB * 1048576 →
   save_upload file uuid4 w =
     (Ok (uuid4, upload_path file uuid4),
      with_files (<[upload_path file uuid4 := content file]> (files w)) w)) ∧
  (MAX_UPLOAD_SIZE_MB * 1048576 < Z.of_nat (length (content file)) →
   save_upload file uuid4 w =
     (Raise (HTTPException 413
               ("File too large. Maximum size is " +:+ pretty MAX_UPLOAD_SIZE_MB +:+ "MB")),
      w)).
Proof.
  intros Hct Himg Hwr. rewrite save_upload_by_checks. unfold save_upload_rejection.
  rewrite Hct, Himg, Hwr. simpl. split; intros Hsize.
  - rewrite bool_decide_eq_false_2; [reflexivity |].
    intros Hbig%size_check_bytes. lia.
  - rewrite bool_decide_eq_true_2; [reflexivity |]. apply size_check_bytes, Hsize.
Qed.

End SubmissionProperties.

Section SubmissionRuns.
Import Demo.


Lemma upload_size_limit_inclusive_witness :
  (Z.of_nat (length (content (mkUpload (Some "image/png") dot_bytes))) ≤
     MAX_UPLOAD_SIZE_MB * 1048576 →
   save_upload (mkUpload (Some "image/png") dot_bytes) "job-3" world0 =
     (Ok ("job-3", upload_path (mkUpload (Some "image/png") dot_bytes) "job-3"),
      with_files (<[upload_path (mkUpload (Some "image/png") dot_bytes) "job-3" :=
                     content (mkUpload (Some "image/png") dot_bytes)]> (files world0))
        world0)) ∧
  (MAX_UPLOAD_SIZE_MB * 1048576 <
     Z.of_nat (length (content (mkUpload (Some "image/png") dot_bytes))) →
   save_upload (mkUpload (Some "image/png") dot_bytes) "job-3" world0 =
     (Raise (HTTPException 413
               ("File too large. Maximum size is " +:+ pretty MAX_UPLOAD_SIZE_MB +:+ "MB")),
      world0)).
Proof.
  apply (upload_size_limit_inclusive (mkUpload (Some "image/png") dot_bytes) "job-3"
           "image/png" world0); reflexivity.
Defined.

End SubmissionRuns.

(** ** Stored uploads, fresh jobs and complete runs *)

Section Runs.
Context `{!Platform}.

(** [FileHandler.read_file] *)
Definition read_file (file_path : string) : M (list Byte.byte) :=
  found ← file_exists file_path;
  if negb found then raise (Exception ("File not found: " +:+ file_path))
  else read_bytes file_path.

(** An uninterrupted run whose sketch decodes and whose artifact can be
    written, with the disk it leaves. *)
Lemma process_conversion_ready
    (mesh_id sketch_path model_type sketch_style output_path : string) (j : Job)
    (bytes : list Byte.byte) (img_array : list (list Z)) (w : World) :
  conversion_status w !! mesh_id = Some j →
  files w !! sketch_path = Some bytes →
  decode_grayscale bytes = Some img_array →
  writable w output_path = true →
  process_conversion mesh_id sketch_path model_type sketch_style output_path w =
    (Ok (),
     mkWorld (<[mesh_id := mkJob "completed" 100 (error j)]> (conversion_status w))
       (models_ready w)
       (<[output_path := export_glb (mesh_of_sketch img_array model_type)]> (files w))
       (writable w) (tasks w)
       (history w ++ ((λ r, (mesh_id, r)) <$> outcome_writes j true))).
Proof.
  intros Hj Hfile Hdec Hwr. unfold process_conversion.
  pose proof (progress_writes_present mesh_id j w Hj) as Hwrites.
  unfold_monad. unfold set_progress in *. unfold_monad.
  destruct (registry_update mesh_id (λ j0, mkJob (status j0) 10 (error j0)) w)
    as [[[]|e] w1] eqn:H10; [| discriminate].
  destruct (registry_update mesh_id (λ j0, mkJob (status j0) 30 (error j0)) w1)
    as [[[]|e] w2] eqn:H30; [| discriminate].
  injection Hwrites as ->.
  match goal with
  | |- context [convert_sketch_to_mesh ?a ?b ?c ?d ?w0] =>
      destruct (convert_sketch_to_mesh_cases a b c d w0)
        as [(bytes' & img' & Hfile' & Hdec' & _ & Hrun) | (Hnot & _)]
  end.
  - simpl in Hfile'. rewrite Hfile in Hfile'. injection Hfile' as <-.
    rewrite Hdec in Hdec'. injection Hdec' as <-.
    rewrite Hrun.
    erewrite record_outcome_present by (simpl; apply lookup_insert_eq).
    unfold outcome_writes, with_registry, with_files. simpl.
    rewrite insert_insert_eq, <- app_assoc. reflexivity.
  - destruct Hnot. exists bytes, img_array. auto.
Qed.

(** X5: what [save_upload] stores can be read back: [read_file] on the path
    it returns gives exactly the uploaded bytes.  On a path with no file
    [read_file] raises [File not found] and changes nothing. *)
Theorem stored_upload_reads_back
    (file : UploadFile) (uuid4 mesh_id file_path : string) (w w' : World) :
  save_upload file uuid4 w = (Ok (mesh_id, file_path), w') →
  mesh_id = uuid4 ∧
  read_file file_path w' = (Ok (content file), w') ∧
  (∀ w0 p, files w0 !! p = None →
     read_file p w0 = (Raise (Exception ("File not found: " +:+ p)), w0)).
Proof.
  rewrite save_upload_by_checks.
  destruct (save_upload_rejection w file uuid4); [discriminate |].
  intros [= <- <- <-]. split; [reflexivity |]. split.
  - unfold read_file, file_exists, path_exists, read_bytes. unfold_monad. simpl.
    rewrite lookup_insert_eq.
    rewrite bool_decide_eq_true_2 by eauto. simpl.
    rewrite lookup_insert_eq. reflexivity.
  - intros w0 p Hp. unfold read_file, file_exists, path_exists. unfold_monad.
    rewrite Hp. rewrite bool_decide_eq_false_2 by (intros [? ?]; discriminate). reflexivity.
Qed.

(** X6: right after an accepted submission the job can be polled under the
    returned identifier and shows [processing] with progress 0 and no error;
    asking for its download at that point is refused with 400, the detail
    naming the status [processing]. *)
Theorem fresh_job_is_processing
    (sketch : UploadFile) (model_type sketch_style uuid4 : string) (w w' : World)
    (resp : ConvertResponse) :
  convert_sketch sketch model_type sketch_style uuid4 w = (Ok resp, w') →
  cr_status resp = "processing" ∧
  get_conversion_status (cr_mesh_id resp) w' =
    (Ok (mkStatusResponse "processing" (Some 0) None), w') ∧
  download_mesh (cr_mesh_id resp) w' =
    (Raise (HTTPException 400 "Conversion not completed. Status: processing"), w').
Proof.
  rewrite convert_sketch_by_checks.
  destruct (first_rejection w sketch model_type sketch_style uuid4); [discriminate |].
  intros [= <- <-]. simpl. split; [reflexivity |].
  unfold get_conversion_status, download_mesh. simpl.
  rewrite !lookup_insert_eq. simpl. auto.
Qed.

(** X7: a whole successful conversion.  After an accepted submission whose
    bytes decode, with a writable output path, one uninterrupted run of the
    coroutine queued for it returns normally; the job is then [completed]
    with progress 100 and no error, the artifact on disk is the GLB export
    of the mesh built from the decoded sketch for the submitted category,
    and the download is served under the name [{id}.glb]. *)
Theorem accepted_decodable_sketch_completes
    (sketch : UploadFile) (model_type sketch_style uuid4 : string)
    (img_array : list (list Z)) (w : World) :
  admitted w sketch model_type sketch_style uuid4 →
  decode_grayscale (content sketch) = Some img_array →
  writable w (get_output_path uuid4 "glb") = true →
  ∃ w',
    process_conversion uuid4 (upload_path sketch uuid4) model_type sketch_style
      (get_output_path uuid4 "glb") (submitted w sketch model_type sketch_style uuid4) =
      (Ok (), w') ∧
    get_conversion_status uuid4 w' = (Ok (mkStatusResponse "completed" (Some 100) None), w') ∧
    files w' !! get_output_path uuid4 "glb" =
      Some (export_glb (mesh_of_sketch img_array model_type)) ∧
    download_mesh uuid4 w' =
      (Ok (mkFileResponse (get_output_path uuid4 "glb") "model/gltf-binary" (uuid4 +:+ ".glb")
             [("Content-Disposition", "attachment; filename=" +:+ uuid4 +:+ ".glb")]), w').
Proof.
  intros _ Hdec Hwr.
  eexists. split.
  - apply (process_conversion_ready uuid4 (upload_path sketch uuid4) model_type sketch_style
             (get_output_path uuid4 "glb") job_created (content sketch) img_array);
      simpl; [apply lookup_insert_eq | apply lookup_insert_eq | exact Hdec | exact Hwr].
  - unfold get_conversion_status, download_mesh, file_exists, path_exists. simpl.
    rewrite !lookup_insert_eq. simpl. auto.
Qed.

(** X8: run for an identifier that is not in the registry, the coroutine
    fails at its first write and the [except] clause fails the same way: the
    [KeyError] leaves the coroutine, nothing has been written and the
    service has not been called. *)
Theorem unknown_job_key_error_escapes
    (mesh_id sketch_path model_type sketch_style output_path : string) (w : World) :
  conversion_status w !! mesh_id = None →
  process_conversion mesh_id sketch_path model_type sketch_style output_path w =
    (Raise (KeyError mesh_id), w).
Proof.
  intros Hnone. unfold process_conversion, on_exception, set_status, set_progress.
  unfold_monad. rewrite !(registry_update_absent _ _ _ Hnone). reflexivity.
Qed.


End Runs.

Section RunsOnDemo.
Import Demo.

Lemma stored_upload_reads_back_witness :
  "job-3" = "job-3" ∧
  read_file (upload_path (mkUpload (Some "image/png") dot_bytes) "job-3")
    (with_files (<[upload_path (mkUpload (Some "image/png") dot_bytes) "job-3" := dot_bytes]>
                   (files world0)) world0) =
    (Ok (content (mkUpload (Some "image/png") dot_bytes)),
     with_files (<[upload_path (mkUpload (Some "image/png") dot_bytes) "job-3" := dot_bytes]>
                   (files world0)) world0) ∧
  (∀ w0 p, files w0 !! p = None →
     read_file p w0 = (Raise (Exception ("File not found: " +:+ p)), w0)).
Proof.
  apply (stored_upload_reads_back (mkUpload (Some "image/png") dot_bytes) "job-3" "job-3"
           (upload_path (mkUpload (Some "image/png") dot_bytes) "job-3") world0).
  vm_compute. reflexivity.
Defined.

Lemma fresh_job_is_processing_witness :
  cr_status (mkConvertResponse "job-1" "processing" None None) = "processing" ∧
  get_conversion_status (cr_mesh_id (mkConvertResponse "job-1" "processing" None None))
    after_submit = (Ok (mkStatusResponse "processing" (Some 0) None), after_submit) ∧
  download_mesh (cr_mesh_id (mkConvertResponse "job-1" "processing" None None)) after_submit =
    (Raise (HTTPException 400 "Conversion not completed. Status: processing"), after_submit).
Proof.
  apply (fresh_job_is_processing (mkUpload (Some "image/png") dot_bytes) "cars" "suggestive"
           "job-1" world0 after_submit).
  vm_compute. reflexivity.
Defined.

Lemma admitted_dot : admitted world0 (mkUpload (Some "image/png") dot_bytes) "cars" "suggestive"
                       "job-1".
Proof.
  unfold admitted. split_and!; try reflexivity.
  - constructor.
  - constructor.
  - exists "image/png". split; reflexivity.
  - vm_compute. discriminate.
Qed.

Lemma accepted_decodable_sketch_completes_witness :
  ∃ w',
    process_conversion "job-1" (upload_path (mkUpload (Some "image/png") dot_bytes) "job-1")
      "cars" "suggestive" (get_output_path "job-1" "glb")
      (submitted world0 (mkUpload (Some "image/png") dot_bytes) "cars" "suggestive" "job-1") =
      (Ok (), w') ∧
    get_conversion_status "job-1" w' =
      (Ok (mkStatusResponse "completed" (Some 100) None), w') ∧
    files w' !! get_output_path "job-1" "glb" = Some (export_glb (mesh_of_sketch dot "cars")) ∧
    download_mesh "job-1" w' =
      (Ok (mkFileResponse (get_output_path "job-1" "glb") "model/gltf-binary"
             ("job-1" +:+ ".glb")
             [("Content-Disposition", "attachment; filename=" +:+ "job-1" +:+ ".glb")]), w').
Proof.
  apply (accepted_decodable_sketch_completes (mkUpload (Some "image/png") dot_bytes) "cars"
           "suggestive" "job-1" dot world0).
  - exact admitted_dot.
  - vm_compute. reflexivity.
  - reflexivity.
Defined.

Lemma unknown_job_key_error_escapes_witness :
  process_conversion "job-9" "/nowhere.png" "cars" "suggestive" "/nowhere.glb" world1 =
    (Raise (KeyError "job-9"), world1).
Proof.
  apply (unknown_job_key_error_escapes "job-9" "/nowhere.png" "cars" "suggestive" "/nowhere.glb"
           world1).
  vm_compute. reflexivity.
Defined.

End RunsOnDemo.

(** ** Ranges of the sketch statistics and of the synthesized shape *)

Section Ranges.
Context `{!Platform}.

Lemma count_ink_le_rows (img_array : list (list Z)) (n : nat) :
  (∀ row, row ∈ img_array → length row = n) →
  count_ink img_array ≤ Z.of_nat (length img_array * n).
Proof.
  unfold count_ink. induction img_array as [|row img IH]; intros Hrows; simpl; [lia |].
  pose proof (length_filter (λ p, is_ink p = true) row) as Hrow.
  rewrite (Hrows row) in Hrow by left.
  assert (Himg : ∀ r, r ∈ img → length r = n) by (intros r Hr; apply Hrows; right; exact Hr).
  specialize (IH Himg). lia.
Qed.

Lemma count_ink_le_size (img_array : list (list Z)) :
  rectangular img_array → count_ink img_array ≤ array_size img_array.
Proof. intros Hrect. apply count_ink_le_rows. exact Hrect. Qed.

(** X10: on a rectangular raster with at least one pixel the coverage lies
    between 0 and 1, so the factor [0.5 + coverage * 1.5] by which the
    finished mesh is scaled lies between 0.5 and 2. *)
Theorem coverage_and_scale_range (img_array : list (list Z)) :
  rectangular img_array →
  0 < array_size img_array →
  (0 <= coverage (sketch_statistics img_array) <= 1)%Q ∧
  (0.5 <= 0.5 + coverage (sketch_statistics img_array) * 1.5 <= 2)%Q.
Proof.
  intros Hrect Hsize.
  assert (Hcov : (0 <= coverage (sketch_statistics img_array) <= 1)%Q).
  { split; [apply coverage_nonneg |]. rewrite coverage_eq.
    apply Qle_shift_div_r.
    - unfold Qlt. simpl. lia.
    - rewrite Qmult_1_l. rewrite <- Zle_Qle. apply count_ink_le_size, Hrect. }
  split; [exact Hcov |]. destruct Hcov. split; lra.
Qed.

Lemma length_any_axis0 (img_array : list (list Z)) :
  length (any_axis0 img_array) = snd (shape img_array).
Proof. unfold any_axis0. rewrite length_fmap. apply length_seq. Qed.

Lemma length_any_axis1 (img_array : list (list Z)) :
  length (any_axis1 img_array) = fst (shape img_array).
Proof. unfold any_axis1. rewrite length_fmap. reflexivity. Qed.

(** X11: the reported width and height are never negative and stay below
    the number of columns and rows of the raster; the aspect ratio is never
    negative and at most [max(1, columns - 1)]. *)
Theorem bounding_box_within_raster (img_array : list (list Z)) :
  0 < array_size img_array →
  0 ≤ width (sketch_statistics img_array) ≤ Z.of_nat (snd (shape img_array)) - 1 ∧
  0 ≤ height (sketch_statistics img_array) ≤ Z.of_nat (fst (shape img_array)) - 1 ∧
  (0 <= aspect_ratio (sketch_statistics img_array) <=
   inject_Z (Z.max 1 (Z.of_nat (snd (shape img_array)) - 1)))%Q.
Proof.
  intros Hsize. unfold array_size in Hsize.
  assert (Hrows : (0 < fst (shape img_array))%nat) by nia.
  assert (Hcols : (0 < snd (shape img_array))%nat) by nia.
  unfold sketch_statistics.
  destruct (any (any_axis1 img_array)) eqn:Hr; cbn [andb];
    [destruct (any (any_axis0 img_array)) eqn:Hc; cbn [andb] |].
  - destruct (first_last_spec _ Hr) as (ymin & ymax & -> & Hymin & Hymax & Hyb).
    destruct (first_last_spec _ Hc) as (xmin & xmax & -> & Hxmin & Hxmax & Hxb).
    cbn [width height aspect_ratio].
    pose proof (Hyb ymin Hymin) as [_ Hy]. pose proof (Hxb xmin Hxmin) as [_ Hx].
    apply lookup_lt_Some in Hymax, Hxmax.
    rewrite length_any_axis1 in Hymax. rewrite length_any_axis0 in Hxmax.
    split; [lia |]. split; [lia |].
    assert (Hden : (0 < inject_Z (Z.max (Z.of_nat ymax - Z.of_nat ymin) 1))%Q).
    { replace 0%Q with (inject_Z 0) by reflexivity. rewrite <- Zlt_Qlt. lia. }
    split.
    + apply Qle_shift_div_l; [exact Hden |]. rewrite Qmult_0_l.
      replace 0%Q with (inject_Z 0) by reflexivity. rewrite <- Zle_Qle. lia.
    + apply Qle_shift_div_r; [exact Hden |].
      rewrite <- inject_Z_mult, <- Zle_Qle. nia.
  - cbn [width height aspect_ratio]. split; [lia |]. split; [lia |]. split; [discriminate |].
    replace 1%Q with (inject_Z 1) by reflexivity. rewrite <- Zle_Qle. lia.
  - cbn [width height aspect_ratio]. split; [lia |]. split; [lia |]. split; [discriminate |].
    replace 1%Q with (inject_Z 1) by reflexivity. rewrite <- Zle_Qle. lia.
Qed.

Lemma Qmax_floor (x : Q) : (x <= 2)%Q → Qmax 2.0 x = 2.0%Q.
Proof.
  intros Hx. unfold Qmax, GenericMinMax.gmax.
  destruct (2.0 ?= x)%Q eqn:Hcmp; try reflexivity.
  apply Qlt_alt in Hcmp. lra.
Qed.

(** X12: the car body has a floor on its length: every aspect ratio up to
    4/3 gives the same car, whatever width and height were measured; the
    chair does not depend on the aspect ratio, the width or the height at
    all.  Only the coverage tells such meshes apart. *)
Theorem shape_ignores_small_aspect
    (coverage a a' : Q) (width height width' height' : Z) :
  (a * 1.5 <= 2)%Q →
  (a' * 1.5 <= 2)%Q →
  _generate_car_like_mesh coverage a width height =
    _generate_car_like_mesh coverage a' width' height' ∧
  (∀ b b', _generate_chair_like_mesh coverage b width height =
           _generate_chair_like_mesh coverage b' width' height').
Proof.
  intros Ha Ha'. split; [| reflexivity].
  unfold _generate_car_like_mesh, car_parts.
  rewrite (Qmax_floor _ Ha), (Qmax_floor _ Ha'). reflexivity.
Qed.

End Ranges.

Section RangesOnDemo.
Import Demo.

Lemma coverage_and_scale_range_witness :
  (0 <= coverage (sketch_statistics dot) <= 1)%Q ∧
  (0.5 <= 0.5 + coverage (sketch_statistics dot) * 1.5 <= 2)%Q.
Proof.
  apply (coverage_and_scale_range dot); [exact rectangular_dot | reflexivity].
Defined.

Lemma bounding_box_within_raster_witness :
  0 ≤ width (sketch_statistics dot) ≤ Z.of_nat (snd (shape dot)) - 1 ∧
  0 ≤ height (sketch_statistics dot) ≤ Z.of_nat (fst (shape dot)) - 1 ∧
  (0 <= aspect_ratio (sketch_statistics dot) <=
   inject_Z (Z.max 1 (Z.of_nat (snd (shape dot)) - 1)))%Q.
Proof. apply (bounding_box_within_raster dot). reflexivity. Defined.

Lemma shape_ignores_small_aspect_witness :
  _generate_car_like_mesh 0.25 0 0 0 = _generate_car_like_mesh 0.25 1 7 7 ∧
  (∀ b b', _generate_chair_like_mesh 0.25 b 0 0 = _generate_chair_like_mesh 0.25 b' 7 7).
Proof.
  apply (shape_ignores_small_aspect 0.25 0 1 0 0 7 7); vm_compute; discriminate.
Defined.

End RangesOnDemo.

(** ** Paths derived from identifiers *)

Section Paths.
Context `{!Platform}.

Lemma list_ascii_of_string_app (s t : string) :
  list_ascii_of_string (s +:+ t) = list_ascii_of_string s ++ list_ascii_of_string t.
Proof. induction s as [|c s IH]; simpl; [reflexivity | rewrite IH; reflexivity]. Qed.

Lemma string_app_inv_tail (s1 s2 t : string) : s1 +:+ t = s2 +:+ t → s1 = s2.
Proof.
  intros Heq. apply (f_equal list_ascii_of_string) in Heq.
  rewrite !list_ascii_of_string_app in Heq. apply app_inv_tail in Heq.
  rewrite <- (string_of_list_ascii_of_string s1), <- (string_of_list_ascii_of_string s2).
  rewrite Heq. reflexivity.
Qed.

Lemma prefix_single (c d : ascii) (r : string) :
  String.prefix (String c "") (String d r) = if ascii_dec c d then true else false.
Proof.
  change (String.prefix (String c "") (String d r))
    with (if ascii_dec c d then String.prefix "" r else false).
  destruct (ascii_dec c d); [destruct r |]; reflexivity.
Qed.

Lemma startswith_slash_app (s t : string) :
  startswith s "/" = false → startswith (s +:+ "." +:+ t) "/" = false.
Proof.
  unfold startswith. destruct s as [|d s]; [intros _; reflexivity |].
  change (String d s +:+ "." +:+ t) with (String d (s +:+ "." +:+ t)).
  rewrite !prefix_single. intros Hd. exact Hd.
Qed.

Lemma string_app_assoc (s t u : string) : (s +:+ t) +:+ u = s +:+ (t +:+ u).
Proof.
  induction s as [|c s IH]; [reflexivity |].
  change (String c ((s +:+ t) +:+ u) = String c (s +:+ (t +:+ u))).
  rewrite IH. reflexivity.
Qed.

(** [os.path.join] with a relative second component keeps it as a suffix
    after a prefix that depends on the first component only. *)
Lemma path_join_relative (a b : string) :
  startswith b "/" = false → ∃ prefix, ∀ b', startswith b' "/" = false →
    path_join a b' = prefix +:+ b'.
Proof.
  intros _. unfold path_join.
  destruct (bool_decide (a = "")) eqn:Ha.
  - exists "". intros b' ->. reflexivity.
  - destruct (contains "/" (substring (String.length a - 1) 1 a)).
    + exists a. intros b' ->. reflexivity.
    + exists (a +:+ "/"). intros b' ->. symmetry. apply string_app_assoc.
Qed.

(** X13: identifiers that do not begin with a slash (a uuid never does)
    have artifact paths of their own: two of them with the same output path
    are the same identifier. *)
Theorem output_paths_do_not_collide (id1 id2 extension : string) :
  startswith id1 "/" = false →
  startswith id2 "/" = false →
  get_output_path id1 extension = get_output_path id2 extension →
  id1 = id2.
Proof.
  intros H1 H2. unfold get_output_path.
  assert (Hb1 : startswith (id1 +:+ "." +:+ extension) "/" = false)
    by (apply startswith_slash_app, H1).
  assert (Hb2 : startswith (id2 +:+ "." +:+ extension) "/" = false)
    by (apply startswith_slash_app, H2).
  destruct (path_join_relative OUTPUTS_DIR _ Hb1) as (prefix & Hjoin).
  rewrite (Hjoin _ Hb1), (Hjoin _ Hb2).
  intros Heq. apply (inj (String.app prefix)) in Heq.
  apply string_app_inv_tail in Heq. exact Heq.
Qed.

End Paths.

Section PathsOnDemo.
Import Demo.

Lemma output_paths_do_not_collide_witness : "job-1" = "job-1".
Proof.
  apply (output_paths_do_not_collide "job-1" "job-1" "glb"); reflexivity.
Defined.

End PathsOnDemo.

(** ** What the event loop keeps true *)

(** The arguments a queued coroutine was created with are those of an
    accepted submission. *)
Record task_from_submission `{!Platform} (t : Task) : Prop := {
  task_output_path : t_output_path t = get_output_path (t_mesh_id t) "glb";
  task_model_type : t_model_type t ∈ ["cars"; "chairs"];
  task_sketch_style : t_sketch_style t ∈ ["suggestive"; "fd"; "handdrawn"];
}.

Section LoopInvariants.
Context `{!Platform}.

(** The coroutines after a turn are those before it, one of them possibly
    advanced to its [await] with its arguments unchanged. *)
Lemma run_task_tasks (i : nat) (w : World) (t' : Task) :
  invariant w → t' ∈ tasks (snd (run_task i w)) →
  ∃ t, t ∈ tasks w ∧
    t_mesh_id t' = t_mesh_id t ∧ t_output_path t' = t_output_path t ∧
    t_model_type t' = t_model_type t ∧ t_sketch_style t' = t_sketch_style t.
Proof.
  intros Hinv. pose proof Hinv as [Hnd Hphase]. unfold run_task.
  destruct (tasks w !! i) as [t|] eqn:Hi; [| intros Hin; exists t'; auto].
  assert (Hin : t ∈ tasks w) by (apply list_elem_of_lookup; eauto).
  destruct (delete_task_ids i t (tasks w) Hnd Hi) as (_ & _ & Hsub).
  destruct (live_task_phase t w Hinv Hin) as [(Hpc & Hreg & _) | (Hpc & Hreg & _)].
  - erewrite (resume_scheduled t job_created) by (first [exact Hpc | exact Hreg]). simpl.
    intros [Hin' | Hin']%elem_of_app; [exists t'; auto |].
    apply list_elem_of_singleton in Hin'. subst t'. exists t. auto.
  - destruct (resume_awaiting t job_synthesizing (with_tasks (delete i (tasks w)) w) Hpc Hreg)
      as (success & files' & _ & Hrun).
    rewrite Hrun. simpl. intros Hin'. exists t'. auto.
Qed.

Lemma reachable_tasks_from_submission (w : World) :
  reachable w → ∀ t, t ∈ tasks w → task_from_submission t.
Proof.
  induction 1 as [ready files0 writable0 | w ev Hw IH Hfresh]; simpl.
  - intros t Hin. inversion Hin.
  - destruct ev as [sketch model_type sketch_style uuid4 | i | f' wr']; simpl.
    + destruct (convert_sketch_cases sketch model_type sketch_style uuid4 w)
        as [(Hadm & ->) | (_ & code & detail & ->)]; simpl; [| exact IH].
      intros t [Hin | Hin]%elem_of_app; [apply IH, Hin |].
      apply list_elem_of_singleton in Hin. subst t.
      destruct Hadm as (_ & Hmt & Hss & _). constructor; simpl; auto.
    + intros t' Hin'.
      destruct (run_task_tasks i w t' (reachable_invariant w Hw) Hin')
        as (t & Hin & Hid & Hout & Hmt & Hss).
      destruct (IH t Hin) as [Ho Hm Hs]. constructor; congruence.
    + exact IH.
Qed.

(** X14: in every state the service can reach, the queued coroutines carry
    pairwise distinct identifiers; each one's job is in the registry with
    status [processing] and no error; its output path is the one derived
    from its identifier and its category and style are valid ones.  A job
    that is completed or failed has no coroutine left that could write to
    it. *)
Theorem queued_coroutines_well_formed (w : World) :
  reachable w →
  NoDup (t_mesh_id <$> tasks w) ∧
  (∀ t, t ∈ tasks w →
     (∃ j, conversion_status w !! t_mesh_id t = Some j ∧
           status j = "processing" ∧ error j = None) ∧
     t_output_path t = get_output_path (t_mesh_id t) "glb" ∧
     t_model_type t ∈ ["cars"; "chairs"] ∧
     t_sketch_style t ∈ ["suggestive"; "fd"; "handdrawn"]) ∧
  (∀ mesh_id j, conversion_status w !! mesh_id = Some j → terminal j →
     ∀ t, t ∈ tasks w → t_mesh_id t ≠ mesh_id).
Proof.
  intros Hw. pose proof (reachable_invariant w Hw) as Hinv.
  split; [apply Hinv |]. split.
  - intros t Hin. split.
    + destruct (live_task_phase t w Hinv Hin) as [(_ & Hreg & _) | (_ & Hreg & _)];
        eexists; (split; [exact Hreg |]); auto.
    + destruct (reachable_tasks_from_submission w Hw t Hin) as [Ho Hm Hs]. auto.
  - intros mesh_id j Hj Hterm t Hin <-.
    destruct (live_task_phase t w Hinv Hin) as [(_ & Hreg & _) | (_ & Hreg & _)];
      rewrite Hreg in Hj; injection Hj as <-; destruct Hterm as [Hs | Hs]; discriminate Hs.
Qed.

(** X15: all a client can ever be told about a job.  In every reachable
    state the status endpoint answers 404 for an identifier that was never
    issued, and otherwise one of four answers: [processing] with progress 0
    or 30, [completed] with progress 100, or [failed] with progress 30 and
    the message.  Progress 100 is reported exactly for completed jobs. *)
Theorem status_answers (w : World) (mesh_id : string) :
  reachable w →
  snd (get_conversion_status mesh_id w) = w ∧
  (fst (get_conversion_status mesh_id w) = Raise (HTTPException 404 "Mesh ID not found") ∧
   conversion_status w !! mesh_id = None ∨
   ∃ resp,
     fst (get_conversion_status mesh_id w) = Ok resp ∧
     resp ∈ [mkStatusResponse "processing" (Some 0) None;
             mkStatusResponse "processing" (Some 30) None;
             mkStatusResponse "completed" (Some 100) None;
             mkStatusResponse "failed" (Some 30) (Some "Conversion process failed")] ∧
     (sr_progress resp = Some 100 ↔ sr_status resp = "completed")).
Proof.
  intros Hw. pose proof (reachable_invariant w Hw) as [_ Hp].
  unfold get_conversion_status.
  destruct (Hp mesh_id) as [Hr _ _ | Hr _ _ | Hr _ _ | Hr _ _ | Hr _ _]; rewrite Hr; simpl;
    (split; [reflexivity |]); [left; auto | right ..];
    (eexists; split; [reflexivity |]); (split; [set_solver |]); simpl;
    split; intros Heq; first [discriminate Heq | reflexivity].
Qed.

End LoopInvariants.

Section LoopInvariantsOnDemo.
Import Demo.

Lemma reachable_after_first_turn : reachable after_first_turn.
Proof. apply (reachable_step _ (RunTask 0)); [exact reachable_after_submit | exact I]. Qed.

Lemma queued_coroutines_well_formed_witness :
  NoDup (t_mesh_id <$> tasks after_first_turn) ∧
  (∀ t, t ∈ tasks after_first_turn →
     (∃ j, conversion_status after_first_turn !! t_mesh_id t = Some j ∧
           status j = "processing" ∧ error j = None) ∧
     t_output_path t = get_output_path (t_mesh_id t) "glb" ∧
     t_model_type t ∈ ["cars"; "chairs"] ∧
     t_sketch_style t ∈ ["suggestive"; "fd"; "handdrawn"]) ∧
  (∀ mesh_id j, conversion_status after_first_turn !! mesh_id = Some j → terminal j →
     ∀ t, t ∈ tasks after_first_turn → t_mesh_id t ≠ mesh_id).
Proof. apply (queued_coroutines_well_formed after_first_turn), reachable_after_first_turn. Defined.

Lemma status_answers_witness :
  snd (get_conversion_status "job-2" after_garbage_run) = after_garbage_run ∧
  (fst (get_conversion_status "job-2" after_garbage_run) =
     Raise (HTTPException 404 "Mesh ID not found") ∧
   conversion_status after_garbage_run !! "job-2" = None ∨
   ∃ resp,
     fst (get_conversion_status "job-2" after_garbage_run) = Ok resp ∧
     resp ∈ [mkStatusResponse "processing" (Some 0) None;
             mkStatusResponse "processing" (Some 30) None;
             mkStatusResponse "completed" (Some 100) None;
             mkStatusResponse "failed" (Some 30) (Some "Conversion process failed")] ∧
     (sr_progress resp = Some 100 ↔ sr_status resp = "completed")).
Proof. apply (status_answers after_garbage_run "job-2"), reachable_after_garbage_run. Defined.

End LoopInvariantsOnDemo.

(** ** Readiness *)

(** [models.py]: [HealthResponse] *)
Record HealthResponse := mkHealthResponse {
  hr_status : string;
  hr_models_ready : bool;
  hr_sketch2mesh_available : bool;
}.

Section Readiness.
Context `{!Platform}.

(** [GET /health].  [sketch2mesh_available] is the second module-level
    flag, set together with [models_ready] at startup. *)
Definition health_check (sketch2mesh_available : bool) : M HealthResponse := λ w,
  (Ok (mkHealthResponse (if models_ready w then "healthy" else "initializing")
         (models_ready w) sketch2mesh_available), w).

(** A turn of the event loop leaves the readiness flag alone. *)
Lemma run_task_models_ready (i : nat) (w : World) :
  invariant w → models_ready (snd (run_task i w)) = models_ready w.
Proof.
  intros Hinv. pose proof Hinv as [Hnd Hphase]. unfold run_task.
  destruct (tasks w !! i) as [t|] eqn:Hi; [| reflexivity].
  assert (Hin : t ∈ tasks w) by (apply list_elem_of_lookup; eauto).
  destruct (live_task_phase t w Hinv Hin) as [(Hpc & Hreg & _) | (Hpc & Hreg & _)].
  - erewrite (resume_scheduled t job_created) by (first [exact Hpc | exact Hreg]). reflexivity.
  - destruct (resume_awaiting t job_synthesizing (with_tasks (delete i (tasks w)) w) Hpc Hreg)
      as (success & files' & _ & Hrun).
    rewrite Hrun. reflexivity.
Qed.

Lemma later_models_ready (w w' : World) :
  reachable w → later w w' → models_ready w' = models_ready w.
Proof.
  intros Hw. induction 1 as [| w' ev Hlater IH Hfresh]; [reflexivity |].
  rewrite <- IH.
  destruct ev as [sketch model_type sketch_style uuid4 | i | f' wr']; simpl.
  - destruct (convert_sketch_cases sketch model_type sketch_style uuid4 w')
      as [(_ & ->) | (_ & code & detail & ->)]; reflexivity.
  - apply run_task_models_ready, reachable_invariant, (later_reachable w); assumption.
  - reflexivity.
Qed.

(** X16: the health probe and the admission check agree, and readiness is
    decided once.  The probe reports [initializing] exactly when a
    submission is refused with 503, and no submission, coroutine turn or
    disk change alters the flag: a service that is not ready stays so, every
    later submission is refused with 503 and the probe keeps reporting
    [initializing]. *)
Theorem readiness_is_decided_at_startup
    (w w' : World) (available : bool) (sketch : UploadFile)
    (model_type sketch_style uuid4 : string) :
  reachable w →
  later w w' →
  (fst (health_check available w') = Ok (mkHealthResponse "initializing" false available) ↔
   convert_sketch sketch model_type sketch_style uuid4 w' =
     (Raise (HTTPException 503 "Service not ready. Models are still initializing."), w')) ∧
  fst (health_check available w') = fst (health_check available w) ∧
  snd (health_check available w') = w'.
Proof.
  intros Hw Hlater. pose proof (later_models_ready w w' Hw Hlater) as Hready.
  split; [| split; [unfold health_check; simpl; rewrite Hready |]; reflexivity].
  rewrite convert_sketch_by_checks. unfold health_check, first_rejection, save_upload_rejection.
  simpl. destruct (models_ready w'); simpl.
  - split; [discriminate |].
    repeat (match goal with
            | |- context [if ?b then _ else _] => destruct b
            end; simpl); discriminate.
  - split; reflexivity.
Qed.

End Readiness.

Section ReadinessOnDemo.
Import Demo.

Lemma readiness_is_decided_at_startup_witness :
  (fst (health_check true after_run) = Ok (mkHealthResponse "initializing" false true) ↔
   convert_sketch (mkUpload (Some "image/png") dot_bytes) "cars" "suggestive" "job-4" after_run =
     (Raise (HTTPException 503 "Service not ready. Models are still initializing."),
      after_run)) ∧
  fst (health_check true after_run) = fst (health_check true after_submit) ∧
  snd (health_check true after_run) = after_run.
Proof.
  apply (readiness_is_decided_at_startup after_submit after_run true
           (mkUpload (Some "image/png") dot_bytes) "cars" "suggestive" "job-4").
  - exact reachable_after_submit.
  - exact later_after_run.
Defined.

End ReadinessOnDemo.

(** ** sketch2mesh_service.py: finding the reconstruction output *)

Section FindObj.

(** [str.lower] on the letters A to Z.  (Python also lowers letters outside
    ASCII; none of them becomes one of the four characters of [.obj].) *)
Definition lower_char (c : ascii) : ascii :=
  let n := nat_of_ascii c in
  if (65 <=? n)%nat && (n <=? 90)%nat then ascii_of_nat (n + 32) else c.

Fixpoint lower (s : string) : string :=
  match s with
  | EmptyString => EmptyString
  | String c rest => String (lower_char c) (lower rest)
  end.

(** [s.endswith(suffix)] *)
Definition endswith (s suffix : string) : bool :=
  (String.length suffix <=? String.length s)%nat &&
  String.eqb (substring (String.length s - String.length suffix) (String.length suffix) s)
    suffix.

(** The loop of [_find_obj_file] over the names returned by [os.listdir]. *)
Fixpoint first_obj (directory : string) (names : list string) : string :=
  match names with
  | [] => ""
  | file :: rest =>
      if endswith (lower file) ".obj" then path_join directory file
      else first_obj directory rest
  end.

(** [Sketch2MeshService._find_obj_file].  [listdir] is [os.listdir], [None]
    when it raises. *)
Definition _find_obj_file (listdir : string → option (list string)) (directory : string)
    : string :=
  match listdir directory with
  | Some names => first_obj directory names
  | None => ""
  end.

Lemma path_join_nonempty (a b : string) : b ≠ "" → path_join a b ≠ "".
Proof.
  intros Hb. unfold path_join.
  destruct (startswith b "/"); [exact Hb |].
  destruct (bool_decide (a = "")) eqn:Ha; [exact Hb |].
  apply bool_decide_eq_false in Ha.
  destruct (contains "/" _); destruct a; try congruence; discriminate.
Qed.

Lemma endswith_nonempty (s : string) : endswith s ".obj" = true → s ≠ "".
Proof. intros Hs ->. discriminate Hs. Qed.

Lemma lower_nonempty (s : string) : lower s ≠ "" → s ≠ "".
Proof. intros Hs ->. apply Hs. reflexivity. Qed.

(** X17: [_find_obj_file] returns the joined path of the first listed name
    that ends in [.obj], upper or lower case, all names before it being of
    another kind; it returns the empty string exactly when the listing
    fails or holds no such name. *)
Theorem find_obj_file_first_match
    (listdir : string → option (list string)) (directory : string) :
  (_find_obj_file listdir directory = "" ↔
   listdir directory = None ∨
   ∃ names, listdir directory = Some names ∧
            ∀ file, file ∈ names → endswith (lower file) ".obj" = false) ∧
  (_find_obj_file listdir directory ≠ "" →
   ∃ before file after,
     listdir directory = Some (before ++ file :: after) ∧
     (∀ other, other ∈ before → endswith (lower other) ".obj" = false) ∧
     endswith (lower file) ".obj" = true ∧
     _find_obj_file listdir directory = path_join directory file).
Proof.
  unfold _find_obj_file. destruct (listdir directory) as [names|]; [| split; [tauto | congruence]].
  assert (Hloop : (first_obj directory names = "" ∧
                   ∀ file, file ∈ names → endswith (lower file) ".obj" = false) ∨
                  (first_obj directory names ≠ "" ∧
                   ∃ before file after,
                     names = before ++ file :: after ∧
                     (∀ other, other ∈ before → endswith (lower other) ".obj" = false) ∧
                     endswith (lower file) ".obj" = true ∧
                     first_obj directory names = path_join directory file)).
  { induction names as [|file rest IH]; simpl.
    - left. split; [reflexivity |]. intros file Hin. inversion Hin.
    - destruct (endswith (lower file) ".obj") eqn:Hobj.
      + right. split.
        * apply path_join_nonempty, lower_nonempty, endswith_nonempty, Hobj.
        * exists [], file, rest. repeat split; auto. intros other Hin. inversion Hin.
      + destruct IH as [(Hempty & Hnone) | (Hfound & before & f & after & -> & Hb & Hf & Heq)].
        * left. split; [exact Hempty |].
          intros f [-> | Hin]%elem_of_cons; [exact Hobj | apply Hnone, Hin].
        * right. split; [exact Hfound |].
          exists (file :: before), f, after. repeat split; auto.
          intros other [-> | Hin]%elem_of_cons; [exact Hobj | apply Hb, Hin]. }
  destruct Hloop as [(Hempty & Hnone) | (Hfound & before & f & after & -> & Hb & Hf & Heq)].
  - split; [| congruence]. split; [| intros _; exact Hempty].
    intros _. right. eauto.
  - split.
    + split; [intros Hempty; congruence |].
      intros [Hfail | (names' & [= <-] & Hnone)]; [discriminate |].
      rewrite Hnone in Hf by (apply elem_of_app; right; left). discriminate.
    + intros _. exists before, f, after. auto.
Qed.

End FindObj.

(** ** services/mesh_converter.py *)

Section MeshConverter.
Context `{!Platform}.

(** [trimesh.load(path, force='mesh')] and [trimesh.load(path)] on the bytes
    of the file, a scene already merged by [dump(concatenate=True)]; [None]
    when the call raises. *)
Variable trimesh_load_forced : list Byte.byte → option Trimesh.
Variable trimesh_load : list Byte.byte → option Trimesh.
(** [mesh.simplify_quadric_decimation(target_faces)]; [None] when the call
    raises, as it does when the decimation backend, an optional dependency
    of trimesh, is not installed. *)
Variable simplify_quadric_decimation : Trimesh → Z → option Trimesh.







End MeshConverter.

(** ** file_handler.py: the retention sweep *)

Section Cleanup.
Context `{!Platform}.

(** What the sweep asks the operating system: whether a directory exists
    ([os.path.exists]), its entries ([os.listdir], [None] when it raises),
    the modification time of a path in seconds ([os.path.getmtime]) and
    whether [os.remove] succeeds on it.  [CLEANUP_AFTER_HOURS] is the
    configured retention. *)
Variable dir_exists : string → bool.
Variable listdir : string → option (list string).
Variable getmtime : string → Q.
Variable removable : string → bool.
Variable CLEANUP_AFTER_HOURS : Z.

(** [os.remove(p)] *)
Definition remove (file_path : string) : M unit := λ w,
  if removable file_path then (Ok (), with_files (delete file_path (files w)) w)
  else (Raise (Exception ("[Errno 13] Permission denied: '" +:+ file_path +:+ "'")), w).

(** The [for] loop of [_cleanup_directory] over the listed names. *)
Fixpoint cleanup_entries (directory : string) (cutoff_time : Q) (names : list string)
    : M unit :=
  match names with
  | [] => mret ()
  | filename :: rest =>
      let file_path := path_join directory filename in
      is_file ← path_exists file_path;
      (if negb is_file then mret ()
       else if bool_decide (getmtime file_path < cutoff_time)%Q
            then try_except (remove file_path) (λ e, mret ())
            else mret ());;
      cleanup_entries directory cutoff_time rest
  end.

(** [FileHandler._cleanup_directory] *)
Definition _cleanup_directory (directory : string) (cutoff_time : Q) : M unit :=
  if negb (dir_exists directory) then mret ()
  else
    match listdir directory with
    | None => raise (Exception ("[Errno 13] Permission denied: '" +:+ directory +:+ "'"))
    | Some names => cleanup_entries directory cutoff_time names
    end.

(** [FileHandler.cleanup_old_files], run when the clock shows [now]. *)
Definition cleanup_old_files (now : Q) : M unit :=
  try_except
    (let cutoff_time := (now - inject_Z (CLEANUP_AFTER_HOURS * 3600))%Q in
     _cleanup_directory UPLOADS_DIR cutoff_time;;
     _cleanup_directory OUTPUTS_DIR cutoff_time)
    (λ e, mret ()).

(** The disk after the loop: a listed regular file older than the cutoff is
    deleted when the removal succeeds. *)
Definition sweep_one (cutoff_time : Q) (fs : gmap string (list Byte.byte)) (file_path : string)
    : gmap string (list Byte.byte) :=
  if bool_decide (is_Some (fs !! file_path)) &&
     bool_decide (getmtime file_path < cutoff_time)%Q && removable file_path
  then delete file_path fs else fs.

Fixpoint sweep (directory : string) (cutoff_time : Q) (names : list string)
    (fs : gmap string (list Byte.byte)) : gmap string (list Byte.byte) :=
  match names with
  | [] => fs
  | filename :: rest =>
      sweep directory cutoff_time rest (sweep_one cutoff_time fs (path_join directory filename))
  end.

Lemma cleanup_entries_sweep (directory : string) (cutoff_time : Q) (names : list string)
    (w : World) :
  cleanup_entries directory cutoff_time names w =
    (Ok (), with_files (sweep directory cutoff_time names (files w)) w).
Proof.
  revert w. induction names as [|filename rest IH]; intros w.
  - destruct w; reflexivity.
  - cbn [cleanup_entries sweep]. unfold path_exists, remove, sweep_one.
    unfold_monad.
    destruct (bool_decide (is_Some (files w !! path_join directory filename))); cbn.
    + destruct (bool_decide (getmtime (path_join directory filename) < cutoff_time)%Q); cbn.
      * destruct (removable (path_join directory filename)); cbn; rewrite IH; reflexivity.
      * rewrite IH. destruct w; reflexivity.
    + rewrite IH. destruct w; reflexivity.
Qed.

Lemma sweep_one_lookup (cutoff_time : Q) (fs : gmap string (list Byte.byte)) (q p : string) :
  sweep_one cutoff_time fs q !! p = fs !! p ∨
  (sweep_one cutoff_time fs q !! p = None ∧ p = q ∧ is_Some (fs !! p) ∧
   (getmtime p < cutoff_time)%Q ∧ removable p = true).
Proof.
  unfold sweep_one.
  destruct (bool_decide (is_Some (fs !! q))) eqn:Hsome; simpl; [| left; reflexivity].
  destruct (bool_decide (getmtime q < cutoff_time)%Q) eqn:Hold; simpl; [| left; reflexivity].
  destruct (removable q) eqn:Hrm; simpl; [| left; reflexivity].
  destruct (decide (p = q)) as [-> | Hne].
  - right. rewrite lookup_delete_eq.
    apply bool_decide_eq_true in Hsome, Hold. auto.
  - left. apply lookup_delete_ne. congruence.
Qed.

(** Whatever the loop deletes was listed, old and removable. *)
Lemma sweep_lookup (directory : string) (cutoff_time : Q) (names : list string)
    (fs : gmap string (list Byte.byte)) (p : string) :
  sweep directory cutoff_time names fs !! p = fs !! p ∨
  (sweep directory cutoff_time names fs !! p = None ∧ is_Some (fs !! p) ∧
   (∃ filename, filename ∈ names ∧ p = path_join directory filename) ∧
   (getmtime p < cutoff_time)%Q ∧ removable p = true).
Proof.
  revert fs. induction names as [|filename rest IH]; intros fs; cbn [sweep].
  - left. reflexivity.
  - destruct (IH (sweep_one cutoff_time fs (path_join directory filename)))
      as [Hsame | (Hnone & Hsome & (f & Hf & Hp) & Hold & Hrm)].
    + rewrite Hsame.
      destruct (sweep_one_lookup cutoff_time fs (path_join directory filename) p)
        as [Hone | (Hone & Hp & Hsome & Hold & Hrm)]; [left; exact Hone |].
      right. split_and!; auto. exists filename. split; [left | exact Hp].
    + right. split_and!; auto.
      * destruct (sweep_one_lookup cutoff_time fs (path_join directory filename) p)
          as [Hone | (_ & _ & Hsome' & _)]; [rewrite <- Hone; exact Hsome | exact Hsome'].
      * exists f. split; [right; exact Hf | exact Hp].
Qed.


(** The instant before which a file counts as old. *)
Definition cutoff (now : Q) : Q := (now - inject_Z (CLEANUP_AFTER_HOURS * 3600))%Q.

(** The disk after [_cleanup_directory] returned normally. *)
Definition swept (directory : string) (now : Q) (fs : gmap string (list Byte.byte))
    : gmap string (list Byte.byte) :=
  if dir_exists directory then
    match listdir directory with
    | Some names => sweep directory (cutoff now) names fs
    | None => fs
    end
  else fs.

(** The directory can be swept without an exception. *)
Definition listable (directory : string) : Prop :=
  dir_exists directory = false ∨ is_Some (listdir directory).

Lemma cleanup_directory_cases (directory : string) (now : Q) (w : World) :
  (listable directory ∧
   _cleanup_directory directory (cutoff now) w =
     (Ok (), with_files (swept directory now (files w)) w)) ∨
  (dir_exists directory = true ∧ listdir directory = None ∧
   ∃ e, _cleanup_directory directory (cutoff now) w = (Raise e, w)).
Proof.
  unfold _cleanup_directory, swept, listable. unfold_monad.
  destruct (dir_exists directory); simpl.
  - destruct (listdir directory) as [names|].
    + left. split; [right; eauto |]. apply cleanup_entries_sweep.
    + right. eauto.
  - left. split; [left; reflexivity |]. destruct w; reflexivity.
Qed.

Lemma swept_lookup (directory : string) (now : Q) (fs : gmap string (list Byte.byte))
    (p : string) :
  swept directory now fs !! p = fs !! p ∨
  (swept directory now fs !! p = None ∧ is_Some (fs !! p) ∧
   (∃ names filename, listdir directory = Some names ∧ filename ∈ names ∧
                      p = path_join directory filename) ∧
   (getmtime p < cutoff now)%Q ∧ removable p = true).
Proof.
  unfold swept. destruct (dir_exists directory); [| left; reflexivity].
  destruct (listdir directory) as [names|]; [| left; reflexivity].
  destruct (sweep_lookup directory (cutoff now) names fs p)
    as [Hsame | (Hnone & Hsome & (f & Hf & Hp) & Hold & Hrm)]; [left; exact Hsame |].
  right. split_and!; eauto.
Qed.

(** The sweep as a whole: the uploads directory, then the outputs
    directory, an exception from either ending it silently. *)
Lemma cleanup_old_files_cases (now : Q) (w : World) :
  (listable UPLOADS_DIR ∧ listable OUTPUTS_DIR ∧
   cleanup_old_files now w =
     (Ok (), with_files (swept OUTPUTS_DIR now (swept UPLOADS_DIR now (files w))) w)) ∨
  (listable UPLOADS_DIR ∧ ¬ listable OUTPUTS_DIR ∧
   cleanup_old_files now w = (Ok (), with_files (swept UPLOADS_DIR now (files w)) w)) ∨
  (¬ listable UPLOADS_DIR ∧ cleanup_old_files now w = (Ok (), w)).
Proof.
  assert (Hnot : ∀ d, dir_exists d = true → listdir d = None → ¬ listable d).
  { intros d Hd Hl [Hd' | [names Hn]]; congruence. }
  unfold cleanup_old_files. unfold_monad. fold (cutoff now).
  destruct (cleanup_directory_cases UPLOADS_DIR now w)
    as [(Hup & ->) | (Hd & Hl & e & ->)].
  - destruct (cleanup_directory_cases OUTPUTS_DIR now
                (with_files (swept UPLOADS_DIR now (files w)) w))
      as [(Hout & ->) | (Hd & Hl & e & ->)].
    + left. auto.
    + right. left. split; [exact Hup |]. split; [apply Hnot; assumption | reflexivity].
  - right. right. split; [apply Hnot; assumption | reflexivity].
Qed.

(** X20: the retention sweep never raises and never touches the registry,
    the coroutines or the readiness flag.  On disk it only deletes: a file
    that is gone afterwards existed before, was listed in the uploads or the
    outputs directory, was older than the retention and could be removed;
    every file that is not older than the retention is still there, with
    the same bytes. *)
Theorem cleanup_only_deletes_old_files (now : Q) (w : World) :
  ∃ w',
    cleanup_old_files now w = (Ok (), w') ∧
    conversion_status w' = conversion_status w ∧
    tasks w' = tasks w ∧
    models_ready w' = models_ready w ∧
    (∀ p, files w' !! p = files w !! p ∨
          (files w' !! p = None ∧ is_Some (files w !! p) ∧
           (∃ directory names filename,
              directory ∈ [UPLOADS_DIR; OUTPUTS_DIR] ∧ listdir directory = Some names ∧
              filename ∈ names ∧ p = path_join directory filename) ∧
           (getmtime p < now - inject_Z (CLEANUP_AFTER_HOURS * 3600))%Q ∧
           removable p = true)) ∧
    (∀ p, ¬ (getmtime p < now - inject_Z (CLEANUP_AFTER_HOURS * 3600))%Q →
          files w' !! p = files w !! p).
Proof.
  assert (Hup : ∀ p,
    swept UPLOADS_DIR now (files w) !! p = files w !! p ∨
    (swept UPLOADS_DIR now (files w) !! p = None ∧ is_Some (files w !! p) ∧
     (∃ directory names filename,
        directory ∈ [UPLOADS_DIR; OUTPUTS_DIR] ∧ listdir directory = Some names ∧
        filename ∈ names ∧ p = path_join directory filename) ∧
     (getmtime p < cutoff now)%Q ∧ removable p = true)).
  { intros p. destruct (swept_lookup UPLOADS_DIR now (files w) p)
      as [Hsame | (Hnone & Hsome & (names & f & Hl & Hf & Hp) & Hold & Hrm)];
      [left; exact Hsame |].
    right. split_and!; auto. exists UPLOADS_DIR, names, f. split_and!; auto. left. }
  assert (Hboth : ∀ p,
    swept OUTPUTS_DIR now (swept UPLOADS_DIR now (files w)) !! p = files w !! p ∨
    (swept OUTPUTS_DIR now (swept UPLOADS_DIR now (files w)) !! p = None ∧
     is_Some (files w !! p) ∧
     (∃ directory names filename,
        directory ∈ [UPLOADS_DIR; OUTPUTS_DIR] ∧ listdir directory = Some names ∧
        filename ∈ names ∧ p = path_join directory filename) ∧
     (getmtime p < cutoff now)%Q ∧ removable p = true)).
  { intros p.
    destruct (swept_lookup OUTPUTS_DIR now (swept UPLOADS_DIR now (files w)) p)
      as [Hsame | (Hnone & Hsome & (names & f & Hl & Hf & Hp) & Hold & Hrm)].
    - rewrite Hsame. apply Hup.
    - right. split_and!; auto.
      + destruct (Hup p) as [Hsame | (Hnone' & _)]; [rewrite <- Hsame; exact Hsome |].
        rewrite Hnone' in Hsome. destruct Hsome as [? ?]. discriminate.
      + exists OUTPUTS_DIR, names, f. split_and!; auto. right. left. }
  assert (Hkeep : ∀ (fs : gmap string (list Byte.byte)),
    (∀ p, fs !! p = files w !! p ∨
          (fs !! p = None ∧ is_Some (files w !! p) ∧
           (∃ directory names filename,
              directory ∈ [UPLOADS_DIR; OUTPUTS_DIR] ∧ listdir directory = Some names ∧
              filename ∈ names ∧ p = path_join directory filename) ∧
           (getmtime p < cutoff now)%Q ∧ removable p = true)) →
    ∀ p, ¬ (getmtime p < cutoff now)%Q → fs !! p = files w !! p).
  { intros fs Hfs p Hyoung. destruct (Hfs p) as [Hsame | (_ & _ & _ & Hold & _)];
      [exact Hsame | destruct (Hyoung Hold)]. }
  fold (cutoff now).
  destruct (cleanup_old_files_cases now w) as [(_ & _ & ->) | [(_ & _ & ->) | (_ & ->)]];
    eexists; (split; [reflexivity |]); simpl; split_and!; try reflexivity.
  - exact Hboth.
  - apply Hkeep, Hboth.
  - exact Hup.
  - apply Hkeep, Hup.
  - intros p. left. reflexivity.
Qed.


(** X22: if the uploads directory exists and listing it fails, the exception
    is swallowed and the sweep ends there: nothing is deleted, the outputs
    directory is not looked at. *)
Theorem failed_uploads_listing_skips_outputs (now : Q) (w : World) :
  dir_exists UPLOADS_DIR = true →
  listdir UPLOADS_DIR = None →
  cleanup_old_files now w = (Ok (), w).
Proof.
  intros Hd Hl.
  destruct (cleanup_old_files_cases now w) as [(Hup & _) | [(Hup & _) | (_ & ->)]];
    [| | reflexivity]; destruct Hup as [Hd' | [names Hn]]; congruence.
Qed.


End Cleanup.

Section CleanupOnDemo.
Import Demo.

(** A disk whose outputs directory lists the artifact of [job-1], written
    long ago, and whose uploads directory is empty. *)
Definition every_dir (directory : string) : bool := true.
Definition failing_listdir (directory : string) : option (list string) := None.
Definition written_at_epoch (file_path : string) : Q := 0.
Definition every_file (file_path : string) : bool := true.


Lemma failed_uploads_listing_skips_outputs_witness :
  cleanup_old_files every_dir failing_listdir written_at_epoch every_file 24 100000 world2 =
    (Ok (), world2).
Proof.
  apply (failed_uploads_listing_skips_outputs every_dir failing_listdir written_at_epoch
           every_file 24 100000 world2); reflexivity.
Defined.


End CleanupOnDemo.

(** ** Blank sketches *)

Section Blank.

Lemma count_ink_zero_rows (img_array : list (list Z)) :
  count_ink img_array = 0 → ∀ row p, row ∈ img_array → p ∈ row → is_ink p = false.
Proof.
  unfold count_ink. induction img_array as [|row img IH]; intros Hzero r p Hr Hp.
  - inversion Hr.
  - simpl in Hzero.
    pose proof (count_ink_nonneg img) as Hrest. unfold count_ink in Hrest.
    apply elem_of_cons in Hr as [-> | Hr].
    + destruct (is_ink p) eqn:Hink; [| reflexivity].
      assert (Hin : p ∈ filter (λ q, is_ink q = true) row)
        by (apply list_elem_of_filter; auto).
      destruct (filter (λ q, is_ink q = true) row); [inversion Hin | simpl in Hzero; lia].
    + apply (IH ltac:(lia) r p Hr Hp).
Qed.

(** X24: on a raster with at least one pixel the coverage is 0, and so the
    scale factor is its minimum 0.5, exactly when no pixel is below the
    threshold 200. *)
Theorem coverage_zero_iff_blank (img_array : list (list Z)) :
  0 < array_size img_array →
  ((coverage (sketch_statistics img_array) == 0)%Q ↔ no_ink img_array) ∧
  ((0.5 + coverage (sketch_statistics img_array) * 1.5 == 0.5)%Q ↔ no_ink img_array).
Proof.
  intros Hsize.
  assert (Hcov : (coverage (sketch_statistics img_array) == 0)%Q ↔ no_ink img_array).
  { rewrite coverage_eq. split.
    - intros Hzero. assert (Hcount : count_ink img_array = 0).
      { revert Hzero. unfold Qeq, Qdiv, Qmult, Qinv, inject_Z.
        destruct (array_size img_array); simpl; lia. }
      intros y x (p & Hp & Hink). unfold pixel in Hp.
      destruct (img_array !! y) as [row|] eqn:Hrow; simpl in Hp; [| discriminate].
      rewrite (count_ink_zero_rows img_array Hcount row p) in Hink; [discriminate | |];
        apply list_elem_of_lookup; eauto.
    - intros Hno. rewrite (count_ink_none _ (no_ink_rows _ Hno)).
      unfold Qdiv. apply Qmult_0_l. }
  split; [exact Hcov |]. rewrite <- Hcov. split; intros Heq; lra.
Qed.

Lemma coverage_zero_iff_blank_witness :
  ((coverage (sketch_statistics Demo.blank) == 0)%Q ↔ no_ink Demo.blank) ∧
  ((0.5 + coverage (sketch_statistics Demo.blank) * 1.5 == 0.5)%Q ↔ no_ink Demo.blank).
Proof. apply (coverage_zero_iff_blank Demo.blank). reflexivity. Defined.

End Blank.
